(** * Arduino input-relay example (examples/python/arduino_example.py)

    A shallow embedding of the [KeyInput] gRPC servicer: the key table
    built in [__main__], the timed key state machine of [Send], [SendUp]
    and [SendDown], and the byte encoding of [SendMouse]. *)

From Stdlib Require Import ZArith List Ascii Bool Lia.
From Stdlib Require String.
Import ListNotations.
Open Scope Z_scope.

(** ** The [Key] enumeration, as far as the source names it *)

Module Key.

(** The variants referenced by the key table of the source ([End] is a
    Rocq keyword and is written [End_]). *)
Inductive t :=
  | A | B | C | D | E | F | G | H | I | J | K | L | M
  | N | O | P | Q | R | S | T | U | V | W | X | Y | Z
  | Zero | One | Two | Three | Four | Five | Six | Seven | Eight | Nine
  | F1 | F2 | F3 | F4 | F5 | F6 | F7 | F8 | F9 | F10 | F11 | F12
  | Up | Down | Left | Right | Home | End_ | PageUp | PageDown
  | Insert | Delete | Esc | Enter | Space
  | Ctrl | Shift | Alt
  | Tilde | Quote | Semicolon | Comma | Period | Slash.

(** Position of a variant in the declaration order above.  The numbers
    the generated [input_pb2] module gives the variants are not part of
    the sources; this numbering (from 0, as proto3 requires of the first
    value) is the one the concrete runs below use. *)
Definition number (k : t) : BinNums.Z :=
  match k with
  | A => 0 | B => 1 | C => 2 | D => 3 | E => 4 | F => 5
  | G => 6 | H => 7 | I => 8 | J => 9 | K => 10 | L => 11
  | M => 12 | N => 13 | O => 14 | P => 15 | Q => 16 | R => 17
  | S => 18 | T => 19 | U => 20 | V => 21 | W => 22 | X => 23
  | Y => 24 | Z => 25 | Zero => 26 | One => 27 | Two => 28 | Three => 29
  | Four => 30 | Five => 31 | Six => 32 | Seven => 33 | Eight => 34 | Nine => 35
  | F1 => 36 | F2 => 37 | F3 => 38 | F4 => 39 | F5 => 40 | F6 => 41
  | F7 => 42 | F8 => 43 | F9 => 44 | F10 => 45 | F11 => 46 | F12 => 47
  | Up => 48 | Down => 49 | Left => 50 | Right => 51 | Home => 52 | End_ => 53
  | PageUp => 54 | PageDown => 55 | Insert => 56 | Delete => 57 | Esc => 58 | Enter => 59
  | Space => 60 | Ctrl => 61 | Shift => 62 | Alt => 63 | Tilde => 64 | Quote => 65
  | Semicolon => 66 | Comma => 67 | Period => 68 | Slash => 69
  end.

Definition eqb (k1 k2 : t) : bool := BinInt.Z.eqb (number k1) (number k2).

(** The inverse of [number]. *)
Definition of_number (n : BinNums.Z) : option t :=
  match n with
  | 0 => Some A | 1 => Some B | 2 => Some C | 3 => Some D | 4 => Some E
  | 5 => Some F | 6 => Some G | 7 => Some H | 8 => Some I | 9 => Some J
  | 10 => Some K | 11 => Some L | 12 => Some M | 13 => Some N | 14 => Some O
  | 15 => Some P | 16 => Some Q | 17 => Some R | 18 => Some S | 19 => Some T
  | 20 => Some U | 21 => Some V | 22 => Some W | 23 => Some X | 24 => Some Y
  | 25 => Some Z | 26 => Some Zero | 27 => Some One | 28 => Some Two | 29 => Some Three
  | 30 => Some Four | 31 => Some Five | 32 => Some Six | 33 => Some Seven | 34 => Some Eight
  | 35 => Some Nine | 36 => Some F1 | 37 => Some F2 | 38 => Some F3 | 39 => Some F4
  | 40 => Some F5 | 41 => Some F6 | 42 => Some F7 | 43 => Some F8 | 44 => Some F9
  | 45 => Some F10 | 46 => Some F11 | 47 => Some F12 | 48 => Some Up | 49 => Some Down
  | 50 => Some Left | 51 => Some Right | 52 => Some Home | 53 => Some End_ | 54 => Some PageUp
  | 55 => Some PageDown | 56 => Some Insert | 57 => Some Delete | 58 => Some Esc | 59 => Some Enter
  | 60 => Some Space | 61 => Some Ctrl | 62 => Some Shift | 63 => Some Alt | 64 => Some Tilde
  | 65 => Some Quote | 66 => Some Semicolon | 67 => Some Comma | 68 => Some Period | 69 => Some Slash
  | _ => None
  end.

(** The groups the source's comments divide the table into. *)
Inductive group :=
  | Letters | Digits | FunctionKeys | Navigation | Modifiers | Punctuation.

Definition group_of (k : t) : group :=
  match k with
  | A | B | C | D | E | F | G | H | I | J | K | L | M
  | N | O | P | Q | R | S | T | U | V | W | X | Y | Z => Letters
  | Zero | One | Two | Three | Four | Five | Six | Seven | Eight | Nine => Digits
  | F1 | F2 | F3 | F4 | F5 | F6 | F7 | F8 | F9 | F10 | F11 | F12 => FunctionKeys
  | Up | Down | Left | Right | Home | End_ | PageUp | PageDown
  | Insert | Delete | Esc | Enter | Space => Navigation
  | Ctrl | Shift | Alt => Modifiers
  | Tilde | Quote | Semicolon | Comma | Period | Slash => Punctuation
  end.

End Key.

(** Python's [ord] on a one-character string. *)
Definition ord (c : ascii) : Z := Z.of_nat (nat_of_ascii c).

(** The dictionary literal [keys_map] of [__main__], in source order. *)
Definition key_table : list (Key.t * Z) := [
  (* Letters *)
  (Key.A, ord "a"); (Key.B, ord "b"); (Key.C, ord "c"); (Key.D, ord "d");
  (Key.E, ord "e"); (Key.F, ord "f"); (Key.G, ord "g"); (Key.H, ord "h");
  (Key.I, ord "i"); (Key.J, ord "j"); (Key.K, ord "k"); (Key.L, ord "l");
  (Key.M, ord "m"); (Key.N, ord "n"); (Key.O, ord "o"); (Key.P, ord "p");
  (Key.Q, ord "q"); (Key.R, ord "r"); (Key.S, ord "s"); (Key.T, ord "t");
  (Key.U, ord "u"); (Key.V, ord "v"); (Key.W, ord "w"); (Key.X, ord "x");
  (Key.Y, ord "y"); (Key.Z, ord "z");
  (* Digits *)
  (Key.Zero, ord "0"); (Key.One, ord "1"); (Key.Two, ord "2");
  (Key.Three, ord "3"); (Key.Four, ord "4"); (Key.Five, ord "5");
  (Key.Six, ord "6"); (Key.Seven, ord "7"); (Key.Eight, ord "8");
  (Key.Nine, ord "9");
  (* Function Keys *)
  (Key.F1, 0xC2); (Key.F2, 0xC3); (Key.F3, 0xC4); (Key.F4, 0xC5);
  (Key.F5, 0xC6); (Key.F6, 0xC7); (Key.F7, 0xC8); (Key.F8, 0xC9);
  (Key.F9, 0xCA); (Key.F10, 0xCB); (Key.F11, 0xCC); (Key.F12, 0xCD);
  (* Navigation and Controls *)
  (Key.Up, 0xDA); (Key.Down, 0xD9); (Key.Left, 0xD8); (Key.Right, 0xD7);
  (Key.Home, 0xD2); (Key.End_, 0xD5); (Key.PageUp, 0xD3);
  (Key.PageDown, 0xD6); (Key.Insert, 0xD1); (Key.Delete, 0xD4);
  (Key.Esc, 0xB1); (Key.Enter, 0xE0); (Key.Space, ord " ");
  (* Modifier Keys *)
  (Key.Ctrl, 0x80); (Key.Shift, 0x81); (Key.Alt, 0x82);
  (* Punctuation & Special Characters *)
  (Key.Tilde, ord "`"); (Key.Quote, ord "'"); (Key.Semicolon, ord ";");
  (Key.Comma, ord ","); (Key.Period, ord "."); (Key.Slash, ord "/")
].

(** ** Wire constants and Python helpers *)

Definition KEY_DOWN : Z := 1.
Definition KEY_UP : Z := 2.
Definition MOUSE_MOVE : Z := 3.
Definition MOUSE_CLICK : Z := 4.
Definition MOUSE_SCROLL : Z := 5.

Definition is_byte (b : Z) : bool := (0 <=? b) && (b <? 256).

(** [bytes([...])]: a [ValueError] ([None]) unless every item is in
    [range(256)]. *)
Definition bytes (l : list Z) : option (list Z) :=
  if forallb is_byte l then Some l else None.

(** A Python dict with int keys, as an insertion-ordered association list;
    [dict_set] updates an existing key in place and appends a new one. *)
Fixpoint dict_get {V} (d : list (Z * V)) (k : Z) : option V :=
  match d with
  | [] => None
  | (k', v) :: d' => if k' =? k then Some v else dict_get d' k
  end.

Fixpoint dict_set {V} (d : list (Z * V)) (k : Z) (v : V) : list (Z * V) :=
  match d with
  | [] => [(k, v)]
  | (k', v') :: d' => if k' =? k then (k, v) :: d' else (k', v') :: dict_set d' k v
  end.

(** Python's [.to_bytes(2, byteorder='little', signed=True)]: an
    [OverflowError] ([None]) outside the int16 range. *)
Definition to_bytes2_signed (v : Z) : option (list Z) :=
  if (-32768 <=? v) && (v <=? 32767) then
    let u := v mod 65536 in Some [u mod 256; u / 256]
  else None.

(** ** The key state machine of [KeyInput] *)

(** A started [threading.Timer]: its firing time (milliseconds on the
    clock [now] below) and [is_alive()], true until its callback has run. *)
Record Timer := { deadline : Z; alive : bool }.

(** The servicer: the key table it was built with (keys are the integer
    values of [request.key]), [timers_map], the bytes written so far to
    [serial] (one entry per [write] call) and the clock. *)
Record KeyInput := {
  keys_map : list (Z * Z);
  timers_map : list (Z * Timer);
  serial : list (list Z);
  now : Z
}.

Definition init (km : list (Z * Z)) : KeyInput :=
  {| keys_map := km; timers_map := []; serial := []; now := 0 |}.

Definition write (self : KeyInput) (b : list Z) : KeyInput :=
  {| keys_map := keys_map self; timers_map := timers_map self;
     serial := serial self ++ [b]; now := now self |}.

Definition set_timer (self : KeyInput) (key : Z) (t : Timer) : KeyInput :=
  {| keys_map := keys_map self; timers_map := dict_set (timers_map self) key t;
     serial := serial self; now := now self |}.

(** [timer is None or not timer.is_alive()] *)
Definition no_live_timer (timer : option Timer) : bool :=
  match timer with
  | None => true
  | Some t => negb (alive t)
  end.

(** [KeyInput.Send]; [None] is a raised exception ([KeyError] for an
    unknown [request.key]). *)
Definition Send (self : KeyInput) (request_key down_ms : Z) : option KeyInput :=
  match dict_get (keys_map self) request_key with
  | None => None
  | Some key =>
      let timer := dict_get (timers_map self) key in
      if no_live_timer timer then
        match bytes [KEY_DOWN; key] with
        | None => None
        | Some b =>
            let self := write self b in
            Some (set_timer self key {| deadline := now self + down_ms; alive := true |})
        end
      else Some self
  end.

(** [KeyInput.SendUp]: [key = request.key]; the timer is looked up under
    [key] itself. *)
Definition SendUp (self : KeyInput) (key : Z) : option KeyInput :=
  let timer := dict_get (timers_map self) key in
  if no_live_timer timer then
    match dict_get (keys_map self) key with
    | None => None
    | Some code =>
        match bytes [KEY_UP; code] with
        | None => None
        | Some b => Some (write self b)
        end
    end
  else Some self.

(** [KeyInput.SendDown] *)
Definition SendDown (self : KeyInput) (key : Z) : option KeyInput :=
  let timer := dict_get (timers_map self) key in
  if no_live_timer timer then
    match dict_get (keys_map self) key with
    | None => None
    | Some code =>
        match bytes [KEY_DOWN; code] with
        | None => None
        | Some b => Some (write self b)
        end
    end
  else Some self.

(** The timers whose time has come at [t] run their callback
    [self.serial.write(bytes([KEY_UP, key]))], in dict order; [key] is the
    key code the callback captured, the dict key the timer is stored under. *)
Fixpoint fire_due (t : Z) (tm : list (Z * Timer)) : list (list Z) * list (Z * Timer) :=
  match tm with
  | [] => ([], [])
  | (k, tmr) :: rest =>
      let '(ws, rest') := fire_due t rest in
      if alive tmr && (deadline tmr <=? t) then
        ([KEY_UP; k] :: ws, (k, {| deadline := deadline tmr; alive := false |}) :: rest')
      else (ws, (k, tmr) :: rest')
  end.

(** One millisecond passes. *)
Definition tick (self : KeyInput) : KeyInput :=
  let t := now self + 1 in
  let '(ws, tm) := fire_due t (timers_map self) in
  {| keys_map := keys_map self; timers_map := tm;
     serial := serial self ++ ws; now := t |}.

Fixpoint wait (n : nat) (self : KeyInput) : KeyInput :=
  match n with
  | O => self
  | S n' => wait n' (tick self)
  end.

(** The table of [__main__] keyed by the integer values of the variants. *)
Definition keys_map_of (num : Key.t -> Z) : list (Z * Z) :=
  map (fun '(k, c) => (num k, c)) key_table.

Definition example_map : list (Z * Z) := keys_map_of Key.number.

Definition run (st : option KeyInput) (f : KeyInput -> option KeyInput) : option KeyInput :=
  match st with Some s => f s | None => None end.

(** ** [KeyInput.SendMouse] *)

Module MouseAction.
(** [MouseAction.Move], [Click], [ScrollDown]; any other integer value of
    the field is [Other]. *)
Inductive t := Move | Click | ScrollDown | Other (n : Z).
End MouseAction.

Record MouseRequest := {
  width : Z; height : Z; x : Z; y : Z; action : MouseAction.t
}.

(** What a call does on the serial link, in order: a [serial.write] or a
    [time.sleep] (milliseconds). *)
Inductive Effect := SerialWrite (b : list Z) | Sleep (ms : Z).

(** [position] is the result of [pyautogui.position()]; [None] is a raised
    [OverflowError]. *)
Definition SendMouse (position : Z * Z) (request : MouseRequest) : option (list Effect) :=
  let x := x request in
  let y := y request in
  let action := action request in
  let dx := x - fst position in
  let dy := y - snd position in
  match to_bytes2_signed dx, to_bytes2_signed dy with
  | Some dx_bytes, Some dy_bytes =>
      match action with
      | MouseAction.Move =>
          Some [SerialWrite ([MOUSE_MOVE] ++ dx_bytes ++ dy_bytes)]
      | MouseAction.Click =>
          Some [SerialWrite ([MOUSE_MOVE] ++ dx_bytes ++ dy_bytes); Sleep 80;
                SerialWrite [MOUSE_CLICK]]
      | MouseAction.ScrollDown =>
          match to_bytes2_signed 1000 with
          | None => None
          | Some scroll_bytes =>
              Some [SerialWrite ([MOUSE_MOVE] ++ dx_bytes ++ dy_bytes); Sleep 80;
                    SerialWrite ([MOUSE_SCROLL] ++ scroll_bytes)]
          end
      | MouseAction.Other _ => Some []
      end
  | _, _ => None
  end.

(** ** Vocabulary of the statements *)

(** The int16 range. *)
Definition in_int16 (v : Z) : bool := (-32768 <=? v) && (v <=? 32767).

(** Two's-complement little-endian bytes of an int16, and back
    ([int.from_bytes(b, 'little', signed=True)]). *)
Definition le16 (v : Z) : list Z := let u := v mod 65536 in [u mod 256; u / 256].

Definition from_le16 (b : list Z) : Z :=
  match b with
  | [lo; hi] => let u := lo + 256 * hi in if 32768 <=? u then u - 65536 else u
  | _ => 0
  end.

(** A write of the key-down or key-up sequence of key code [c]. *)
Definition is_key_write (c : Z) (w : list Z) : bool :=
  match w with
  | [op; k] => (k =? c) && ((op =? KEY_DOWN) || (op =? KEY_UP))
  | _ => false
  end.

(** The entry of the key table for a variant. *)
Definition lookup_key (k : Key.t) : option Z :=
  match find (fun e => Key.eqb (fst e) k) key_table with
  | Some (_, c) => Some c
  | None => None
  end.

(** What each group of the table maps to: letters and digits to their
    ASCII codes (the variants are declared in alphabetical and numerical
    order), [Space] to ASCII space, the other function, navigation and
    modifier keys into [0x80, 0xE0], punctuation to printable ASCII. *)
Definition code_class_ok (k : Key.t) (c : Z) : bool :=
  match Key.group_of k with
  | Key.Letters => c =? ord "a" + Key.number k
  | Key.Digits => c =? ord "0" + (Key.number k - Key.number Key.Zero)
  | Key.Punctuation => (32 <=? c) && (c <? 127)
  | _ => if Key.eqb k Key.Space then c =? ord " "
         else (0x80 <=? c) && (c <=? 0xE0)
  end.

(** How the entry of one key evolves when the due timers fire. *)
Definition fire_one (t : Z) (tmr : Timer) : Timer :=
  if alive tmr && (deadline tmr <=? t)
  then {| deadline := deadline tmr; alive := false |} else tmr.

Fixpoint nodupb (l : list Z) : bool :=
  match l with
  | [] => true
  | a :: l' => negb (existsb (Z.eqb a) l') && nodupb l'
  end.

(** ** Concrete states *)

(** [Key.A] held by [Send(Key.A, 100)] on a fresh servicer. *)
Definition held_a : KeyInput :=
  set_timer (write (init example_map) [KEY_DOWN; 97]) 97
            {| deadline := 100; alive := true |}.

Definition mouse_req (w h tx ty : Z) (a : MouseAction.t) : MouseRequest :=
  {| width := w; height := h; x := tx; y := ty; action := a |}.

(** ** Sessions of calls on one servicer *)

(** One gRPC call on the servicer, or time passing between calls. *)
Inductive Op :=
  | OpSend (key down_ms : Z)
  | OpUp (key : Z)
  | OpDown (key : Z)
  | OpWait (ms : nat).

Definition step (self : KeyInput) (o : Op) : option KeyInput :=
  match o with
  | OpSend k d => Send self k d
  | OpUp k => SendUp self k
  | OpDown k => SendDown self k
  | OpWait n => Some (wait n self)
  end.

(** A call that raises is reported to the client by gRPC; every raise of
    the handlers happens before their first mutation, so the servicer is
    left as it was. *)
Definition serve (self : KeyInput) (o : Op) : KeyInput :=
  match step self o with
  | Some self' => self'
  | None => self
  end.

Fixpoint run_ops (self : KeyInput) (ops : list Op) : KeyInput :=
  match ops with
  | [] => self
  | o :: ops' => run_ops (serve self o) ops'
  end.

(** Sessions made of [Send] calls and waiting only. *)
Definition send_only (ops : list Op) : bool :=
  forallb (fun o => match o with OpSend _ _ | OpWait _ => true | _ => false end) ops.

(** A write the key handlers and the release callbacks can make: two bytes,
    the key-down or key-up opcode and a key code. *)
Definition key_frame (w : list Z) : bool :=
  match w with
  | [op; c] => ((op =? KEY_DOWN) || (op =? KEY_UP)) && is_byte c
  | _ => false
  end.

(** Replays the key writes of code [c] from the state [held]: a key-down
    is accepted only when the key is up, a key-up only when it is down;
    the result is the final state, [None] at the first write out of turn. *)
Fixpoint key_trace (c : Z) (held : bool) (ws : list (list Z)) : option bool :=
  match ws with
  | [] => Some held
  | [op; k] :: ws' =>
      if (k =? c) && (op =? KEY_DOWN) && negb held then key_trace c true ws'
      else if (k =? c) && (op =? KEY_UP) && held then key_trace c false ws'
      else None
  | _ :: _ => None
  end.

(** ** [find_arduino_ports] and the port choice of [__main__] *)

Module Ports.
Import String.

(** Paths and patterns are Python strings, as lists of characters. *)
Definition chars (s : String.string) : list ascii := String.list_ascii_of_string s.

(** [fnmatch.fnmatchcase] for patterns made of literal characters, [*]
    (any run) and [?] (any one character), the only forms the patterns of
    [find_arduino_ports] use. *)
Fixpoint fnmatch (p s : list ascii) : bool :=
  match p with
  | [] => match s with [] => true | _ => false end
  | c :: p' =>
      if Ascii.eqb c "*" then
        (fix star (s : list ascii) : bool :=
           fnmatch p' s || match s with [] => false | _ :: s' => star s' end) s
      else
        match s with
        | [] => false
        | c' :: s' => (Ascii.eqb c "?" || Ascii.eqb c c') && fnmatch p' s'
        end
  end.

(** A pattern character with no special meaning. *)
Definition plain (c : ascii) : bool := negb (Ascii.eqb c "*") && negb (Ascii.eqb c "?").

(** [glob]'s [_ishidden]. *)
Definition is_hidden (name : list ascii) : bool :=
  match name with "."%char :: _ => true | _ => false end.

Definition dev_prefix : list ascii := chars "/dev/".

(** [glob.glob('/dev/' + pattern)], [dev] being the entries of [/dev] in
    the order [os.scandir] lists them: the non-hidden names matching the
    pattern, joined to the directory. *)
Definition glob_dev (dev : list (list ascii)) (pattern : String.string) : list (list ascii) :=
  map (fun name => dev_prefix ++ name)
      (filter (fun name => negb (is_hidden name) && fnmatch (chars pattern) name) dev).

Fixpoint prefixb (p s : list ascii) : bool :=
  match p, s with
  | [], _ => true
  | a :: p', b :: s' => Ascii.eqb a b && prefixb p' s'
  | _ :: _, [] => false
  end.

(** Python's [sub in s] on strings. *)
Fixpoint str_in (sub s : list ascii) : bool :=
  prefixb sub s || match s with [] => false | _ :: s' => str_in sub s' end.

Definition HID : list ascii := chars "HID".

Definition find_arduino_ports (dev : list (list ascii)) : list (list ascii) :=
  let cu_hid_ports := glob_dev dev "cu.usbmodem*HID*" in
  let tty_hid_ports := glob_dev dev "tty.usbmodem*HID*" in
  let cu_other_ports := glob_dev dev "cu.usbmodem*" ++ glob_dev dev "cu.usbserial*" in
  let tty_other_ports := glob_dev dev "tty.usbmodem*" ++ glob_dev dev "tty.usbserial*" in
  let cu_other_ports := filter (fun p => negb (str_in HID p)) cu_other_ports in
  let tty_other_ports := filter (fun p => negb (str_in HID p)) tty_other_ports in
  cu_hid_ports ++ tty_hid_ports ++ cu_other_ports ++ tty_other_ports.

(** The names in [/dev] that [find_arduino_ports] reports: every usbmodem
    device, and the usbserial devices without [HID] in their name. *)
Definition reported_name (name : list ascii) : bool :=
  prefixb (chars "cu.usbmodem") name || prefixb (chars "tty.usbmodem") name ||
  ((prefixb (chars "cu.usbserial") name || prefixb (chars "tty.usbserial") name)
   && negb (str_in HID name)).

(** The port [__main__] opens: [COM6] on Windows, else the first port
    [find_arduino_ports] lists; [None] is the test mode without serial. *)
Definition main_port (windows : bool) (dev : list (list ascii)) : option (list ascii) :=
  if windows then Some (chars "COM6") else hd_error (find_arduino_ports dev).

(** The device-type message [__main__] prints for the port it opens. *)
Inductive Report := PreferredCuHid | TtyHid | CuDevice | NonPreferred.

Definition report (port : list ascii) : Report :=
  if str_in (chars "cu.usbmodem") port && str_in HID port then PreferredCuHid
  else if str_in (chars "tty.usbmodem") port && str_in HID port then TtyHid
  else if str_in (chars "cu.usbmodem") port then CuDevice
  else NonPreferred.

End Ports.
Import Ports.

(** ** Lemmas on the dict and the timers *)

Lemma dict_get_set_same {V} (d : list (Z * V)) k v :
  dict_get (dict_set d k v) k = Some v.
Proof.
  induction d as [|[k' v'] d IH]; simpl.
  - now rewrite Z.eqb_refl.
  - destruct (k' =? k) eqn:E; simpl.
    + now rewrite Z.eqb_refl.
    + now rewrite E.
Qed.

Lemma dict_get_set_other {V} (d : list (Z * V)) k k2 v :
  k <> k2 -> dict_get (dict_set d k v) k2 = dict_get d k2.
Proof.
  intros Hne. induction d as [|[k' v'] d IH]; simpl.
  - apply Z.eqb_neq in Hne. now rewrite Hne.
  - destruct (k' =? k) eqn:E; simpl.
    + apply Z.eqb_eq in E; subst k'.
      apply Z.eqb_neq in Hne. now rewrite Hne.
    + now rewrite IH.
Qed.

Lemma dict_set_in {V} (d : list (Z * V)) k v a :
  In a (map fst (dict_set d k v)) <-> a = k \/ In a (map fst d).
Proof.
  induction d as [|[k' v'] d IH]; simpl.
  - intuition.
  - destruct (k' =? k) eqn:E; simpl.
    + apply Z.eqb_eq in E; subst k'. intuition.
    + rewrite IH. intuition.
Qed.

Lemma dict_set_nodup {V} (d : list (Z * V)) k v :
  NoDup (map fst d) -> NoDup (map fst (dict_set d k v)).
Proof.
  induction d as [|[k' v'] d IH]; simpl; intros Hnd.
  - constructor; [intros [] | constructor].
  - inversion Hnd as [|? ? Hnin Hnd']; subst.
    destruct (k' =? k) eqn:E; simpl.
    + apply Z.eqb_eq in E; subst k'. now constructor.
    + constructor; [|now apply IH].
      rewrite dict_set_in. intros [Heq|Hin].
      * subst. now rewrite Z.eqb_refl in E.
      * contradiction.
Qed.

Lemma dict_get_not_in {V} (d : list (Z * V)) k :
  ~ In k (map fst d) -> dict_get d k = None.
Proof.
  induction d as [|[k' v'] d IH]; simpl; intros Hn; [reflexivity|].
  destruct (k' =? k) eqn:E.
  - apply Z.eqb_eq in E. exfalso. now apply Hn; left.
  - apply IH. intros Hin. now apply Hn; right.
Qed.

Lemma fire_due_keys t tm : map fst (snd (fire_due t tm)) = map fst tm.
Proof.
  induction tm as [|[k tmr] tm IH]; simpl; [reflexivity|].
  destruct (fire_due t tm) as [ws rest'] eqn:E; simpl in *.
  destruct (alive tmr && (deadline tmr <=? t)); simpl; now rewrite IH.
Qed.


Lemma fire_due_get t tm c :
  dict_get (snd (fire_due t tm)) c = option_map (fire_one t) (dict_get tm c).
Proof.
  induction tm as [|[k tmr] tm IH]; simpl; [reflexivity|].
  destruct (fire_due t tm) as [ws rest'] eqn:E; simpl in *.
  destruct (alive tmr && (deadline tmr <=? t)) eqn:Ea; simpl;
    destruct (k =? c); simpl; auto; unfold fire_one; now rewrite Ea.
Qed.

(** The key writes for [c] among the callbacks that run at [t]: the one of
    the timer stored under [c], if it is due. *)
Lemma fire_due_writes t tm c :
  NoDup (map fst tm) ->
  filter (is_key_write c) (fst (fire_due t tm)) =
  match dict_get tm c with
  | Some tmr => if alive tmr && (deadline tmr <=? t) then [[KEY_UP; c]] else []
  | None => []
  end.
Proof.
  induction tm as [|[k tmr] tm IH]; simpl; intros Hnd; [reflexivity|].
  inversion Hnd as [|? ? Hnin Hnd']; subst.
  specialize (IH Hnd').
  destruct (fire_due t tm) as [ws rest'] eqn:E; simpl in *.
  destruct (k =? c) eqn:Ekc.
  - apply Z.eqb_eq in Ekc; subst k.
    rewrite (dict_get_not_in tm c Hnin) in IH.
    destruct (alive tmr && (deadline tmr <=? t)); simpl; rewrite ?IH;
      [unfold is_key_write, KEY_UP; now rewrite Z.eqb_refl | reflexivity].
  - destruct (alive tmr && (deadline tmr <=? t)); simpl; [|exact IH].
    unfold is_key_write. rewrite Ekc. exact IH.
Qed.

Lemma tick_nodup self :
  NoDup (map fst (timers_map self)) -> NoDup (map fst (timers_map (tick self))).
Proof.
  unfold tick. intros Hnd.
  pose proof (fire_due_keys (now self + 1) (timers_map self)) as Hk.
  destruct (fire_due (now self + 1) (timers_map self)) as [ws tm]; simpl in *.
  now rewrite Hk.
Qed.

Lemma tick_shape self :
  exists ws,
    serial (tick self) = serial self ++ ws /\
    now (tick self) = now self + 1 /\
    ws = fst (fire_due (now self + 1) (timers_map self)) /\
    timers_map (tick self) = snd (fire_due (now self + 1) (timers_map self)).
Proof.
  unfold tick.
  destruct (fire_due (now self + 1) (timers_map self)) as [ws tm]; simpl.
  now exists ws.
Qed.

Lemma wait_dead n : forall self c,
  NoDup (map fst (timers_map self)) ->
  no_live_timer (dict_get (timers_map self) c) = true ->
  exists ext, serial (wait n self) = serial self ++ ext /\
              filter (is_key_write c) ext = [].
Proof.
  induction n as [|n IH]; intros self c Hnd Hdead; simpl.
  - exists []. now rewrite app_nil_r.
  - destruct (tick_shape self) as (ws & Hs & Hn & Hws & Htm).
    assert (Hw : filter (is_key_write c) ws = []).
    { rewrite Hws, fire_due_writes by exact Hnd.
      destruct (dict_get (timers_map self) c) as [tmr|]; simpl in *; [|reflexivity].
      apply negb_true_iff in Hdead. now rewrite Hdead. }
    assert (Hdead' : no_live_timer (dict_get (timers_map (tick self)) c) = true).
    { rewrite Htm, fire_due_get.
      destruct (dict_get (timers_map self) c) as [tmr|]; simpl in *; [|reflexivity].
      unfold fire_one. apply negb_true_iff in Hdead. rewrite Hdead. simpl.
      now rewrite Hdead. }
    destruct (IH (tick self) c (tick_nodup self Hnd) Hdead') as (ext & He & Hf).
    exists (ws ++ ext). rewrite He, Hs, app_assoc. split; [reflexivity|].
    now rewrite filter_app, Hw, Hf.
Qed.

(** A live timer for [c] with deadline [D] writes the key-up of [c] once,
    at the first tick that reaches [D] (the next tick if [D] is past). *)
Lemma wait_alive n : forall self c D,
  NoDup (map fst (timers_map self)) ->
  dict_get (timers_map self) c = Some {| deadline := D; alive := true |} ->
  exists ext, serial (wait n self) = serial self ++ ext /\
    filter (is_key_write c) ext =
      if Z.of_nat n <? Z.max 1 (D - now self) then [] else [[KEY_UP; c]].
Proof.
  induction n as [|n IH]; intros self c D Hnd Hlive.
  - exists []. simpl. rewrite app_nil_r. split; [reflexivity|].
    replace (0 <? Z.max 1 (D - now self)) with true; [reflexivity|].
    symmetry. apply Z.ltb_lt. lia.
  - change (wait (S n) self) with (wait n (tick self)).
    destruct (tick_shape self) as (ws & Hs & Hn & Hws & Htm).
    destruct (D <=? now self + 1) eqn:Hdue.
    + (* the timer fires at this tick *)
      assert (Hw : filter (is_key_write c) ws = [[KEY_UP; c]]).
      { rewrite Hws, fire_due_writes, Hlive by exact Hnd. simpl. now rewrite Hdue. }
      assert (Hdead : no_live_timer (dict_get (timers_map (tick self)) c) = true).
      { rewrite Htm, fire_due_get, Hlive. simpl. unfold fire_one. simpl.
        now rewrite Hdue. }
      destruct (wait_dead n (tick self) c (tick_nodup self Hnd) Hdead) as (ext & He & Hf).
      exists (ws ++ ext). rewrite He, Hs, app_assoc. split; [reflexivity|].
      rewrite filter_app, Hw, Hf.
      apply Z.leb_le in Hdue.
      replace (Z.of_nat (S n) <? Z.max 1 (D - now self)) with false
        by (symmetry; apply Z.ltb_ge; lia).
      reflexivity.
    + (* still pending *)
      assert (Hw : filter (is_key_write c) ws = []).
      { rewrite Hws, fire_due_writes, Hlive by exact Hnd. simpl. now rewrite Hdue. }
      assert (Hlive' : dict_get (timers_map (tick self)) c =
                       Some {| deadline := D; alive := true |}).
      { rewrite Htm, fire_due_get, Hlive. simpl. unfold fire_one. simpl.
        now rewrite Hdue. }
      destruct (IH (tick self) c D (tick_nodup self Hnd) Hlive') as (ext & He & Hf).
      exists (ws ++ ext). rewrite He, Hs, app_assoc. split; [reflexivity|].
      rewrite filter_app, Hw, Hf, Hn. cbn [app].
      apply Z.leb_gt in Hdue.
      replace (Z.of_nat n <? Z.max 1 (D - (now self + 1)))
        with (Z.of_nat (S n) <? Z.max 1 (D - now self)); [reflexivity|].
      destruct (Z.of_nat (S n) <? Z.max 1 (D - now self)) eqn:E1;
      destruct (Z.of_nat n <? Z.max 1 (D - (now self + 1))) eqn:E2; auto;
        [apply Z.ltb_lt in E1; apply Z.ltb_ge in E2 | apply Z.ltb_ge in E1; apply Z.ltb_lt in E2];
        lia.
Qed.

Lemma Send_fresh self k c d :
  dict_get (keys_map self) k = Some c -> is_byte c = true ->
  no_live_timer (dict_get (timers_map self) c) = true ->
  Send self k d =
  Some (set_timer (write self [KEY_DOWN; c]) c
                  {| deadline := now self + d; alive := true |}).
Proof.
  intros Hk Hb Hdead. unfold Send. rewrite Hk, Hdead.
  unfold bytes. simpl. now rewrite Hb.
Qed.

(** ** Lemmas on the encodings *)

Lemma to_bytes2_in v :
  in_int16 v = true -> to_bytes2_signed v = Some (le16 v).
Proof. unfold to_bytes2_signed, in_int16. now intros ->. Qed.

Lemma to_bytes2_out v :
  in_int16 v = false -> to_bytes2_signed v = None.
Proof. unfold to_bytes2_signed, in_int16. now intros ->. Qed.

Lemma le16_roundtrip v : in_int16 v = true -> from_le16 (le16 v) = v.
Proof.
  unfold in_int16, le16, from_le16. intros Hr.
  apply andb_true_iff in Hr as [H1 H2].
  apply Z.leb_le in H1. apply Z.leb_le in H2.
  pose proof (Z.mod_pos_bound v 65536 ltac:(lia)) as Hb.
  pose proof (Z.div_mod v 65536 ltac:(lia)) as Hd.
  set (u := v mod 65536) in *.
  pose proof (Z.div_mod u 256 ltac:(lia)) as Hu.
  replace (u mod 256 + 256 * (u / 256)) with u by lia.
  destruct (32768 <=? u) eqn:E;
    [apply Z.leb_le in E | apply Z.leb_gt in E]; lia.
Qed.


Lemma nodupb_NoDup l : nodupb l = true -> NoDup l.
Proof.
  induction l as [|a l IH]; simpl; intros H; [constructor|].
  apply andb_true_iff in H as [Hn H].
  constructor; [|now apply IH].
  intros Hin. apply negb_true_iff in Hn.
  assert (existsb (Z.eqb a) l = true) as Ht
    by (apply existsb_exists; exists a; split; [exact Hin | apply Z.eqb_refl]).
  congruence.
Qed.

(** ** Runs on concrete inputs *)

Example send_a :
  option_map serial (run (Send (init example_map) 0 100) (fun s => Some (wait 100 s)))
  = Some [[1; 97]; [2; 97]].
Proof. reflexivity. Qed.

Example move_scenario :
  SendMouse (500, 400) {| width := 1366; height := 768; x := 683; y := 384;
                          action := MouseAction.Move |}
  = Some [SerialWrite [3; 183; 0; 240; 255]].
Proof. reflexivity. Qed.

Example held_a_is_send :
  Send (init example_map) (Key.number Key.A) 100 = Some held_a.
Proof. reflexivity. Qed.

(** ** Claims about the key state machine *)

(** C2: while a live timer holds the code of [k], [Send(k, d2)] leaves the
    servicer exactly as it was: no write, the timer neither replaced nor
    reset. *)
Theorem Send_while_held_noop self k c t d2 :
  dict_get (keys_map self) k = Some c ->
  dict_get (timers_map self) c = Some t -> alive t = true ->
  Send self k d2 = Some self.
Proof.
  intros Hk Ht Ha. unfold Send. rewrite Hk, Ht. simpl. now rewrite Ha.
Qed.

Lemma Send_while_held_noop_witness :
  dict_get (keys_map held_a) 0 = Some 97 /\
  dict_get (timers_map held_a) 97 = Some {| deadline := 100; alive := true |} /\
  Send held_a 0 50 = Some held_a.
Proof.
  split; [reflexivity|]. split; [reflexivity|].
  apply (Send_while_held_noop held_a 0 97 {| deadline := 100; alive := true |} 50);
    reflexivity.
Defined.

(** C3: with no live timer for the code [c] of [k], [Send(k, d)] writes the
    key-down of [c] at once and arms a live timer due at [now + d]; as time
    passes, the only key write for [c] is one key-up, at the first
    millisecond tick reaching the deadline. *)
Theorem Send_press_release self k c d :
  NoDup (map fst (timers_map self)) ->
  dict_get (keys_map self) k = Some c -> is_byte c = true ->
  no_live_timer (dict_get (timers_map self) c) = true ->
  exists self',
    Send self k d = Some self' /\
    serial self' = serial self ++ [[KEY_DOWN; c]] /\
    dict_get (timers_map self') c = Some {| deadline := now self + d; alive := true |} /\
    forall n, exists ext,
      serial (wait n self') = serial self' ++ ext /\
      filter (is_key_write c) ext =
        if Z.of_nat n <? Z.max 1 d then [] else [[KEY_UP; c]].
Proof.
  intros Hnd Hk Hb Hdead.
  eexists. split; [exact (Send_fresh self k c d Hk Hb Hdead)|].
  split; [reflexivity|].
  assert (Hget : dict_get (timers_map (set_timer (write self [KEY_DOWN; c]) c
                   {| deadline := now self + d; alive := true |})) c
                 = Some {| deadline := now self + d; alive := true |})
    by apply dict_get_set_same.
  split; [exact Hget|].
  intros n.
  assert (Hnd' : NoDup (map fst (timers_map (set_timer (write self [KEY_DOWN; c]) c
                   {| deadline := now self + d; alive := true |}))))
    by (apply dict_set_nodup; exact Hnd).
  destruct (wait_alive n _ c (now self + d) Hnd' Hget) as (ext & He & Hf).
  exists ext. split; [exact He|]. rewrite Hf. simpl.
  now replace (now self + d - now self) with d by lia.
Qed.

Lemma Send_press_release_witness :
  NoDup (map fst (timers_map (init example_map))) /\
  dict_get (keys_map (init example_map)) 0 = Some 97 /\ is_byte 97 = true /\
  no_live_timer (dict_get (timers_map (init example_map)) 97) = true /\
  exists self',
    Send (init example_map) 0 100 = Some self' /\
    serial self' = serial (init example_map) ++ [[KEY_DOWN; 97]] /\
    dict_get (timers_map self') 97 = Some {| deadline := 0 + 100; alive := true |} /\
    forall n, exists ext,
      serial (wait n self') = serial self' ++ ext /\
      filter (is_key_write 97) ext =
        if Z.of_nat n <? Z.max 1 100 then [] else [[KEY_UP; 97]].
Proof.
  split; [constructor|]. split; [reflexivity|]. split; [reflexivity|].
  split; [reflexivity|].
  apply (Send_press_release (init example_map) 0 97 100);
    [constructor | reflexivity | reflexivity | reflexivity].
Defined.

(** C1: [Send] stores its timer under the key code [c], [SendUp] looks it
    up under [request.key] itself; when the two differ, [SendUp(k)] right
    after [Send(k, d)] writes a key-up at once, while the timer stays live
    and will write a second one. *)
Theorem SendUp_after_Send_writes_up self k c d :
  dict_get (keys_map self) k = Some c -> c <> k -> is_byte c = true ->
  no_live_timer (dict_get (timers_map self) c) = true ->
  no_live_timer (dict_get (timers_map self) k) = true ->
  exists self1 self2,
    Send self k d = Some self1 /\ SendUp self1 k = Some self2 /\
    serial self2 = serial self ++ [[KEY_DOWN; c]; [KEY_UP; c]] /\
    dict_get (timers_map self2) c = Some {| deadline := now self + d; alive := true |}.
Proof.
  intros Hk Hne Hb Hdc Hdk.
  exists (set_timer (write self [KEY_DOWN; c]) c {| deadline := now self + d; alive := true |}).
  eexists. split; [exact (Send_fresh self k c d Hk Hb Hdc)|].
  split.
  - unfold SendUp. simpl.
    rewrite (dict_get_set_other _ c k _ Hne), Hdk, Hk.
    unfold bytes. simpl. rewrite Hb. reflexivity.
  - simpl. split; [now rewrite <- app_assoc|].
    apply dict_get_set_same.
Qed.

Lemma SendUp_after_Send_writes_up_witness :
  dict_get (keys_map (init example_map)) (Key.number Key.A) = Some 97 /\
  exists self1 self2,
    Send (init example_map) (Key.number Key.A) 100 = Some self1 /\
    SendUp self1 (Key.number Key.A) = Some self2 /\
    serial self2 = [[1; 97]; [2; 97]] /\
    dict_get (timers_map self2) 97 = Some {| deadline := 100; alive := true |}.
Proof.
  split; [reflexivity|].
  apply (SendUp_after_Send_writes_up (init example_map) 0 97 100);
    [reflexivity | discriminate | reflexivity | reflexivity | reflexivity].
Defined.

(** C8: the same lookup makes [SendDown(k)] right after [Send(k, d)] write
    a second key-down of [c] while the timer for [c] is live. *)
Theorem SendDown_after_Send_writes_down self k c d :
  dict_get (keys_map self) k = Some c -> c <> k -> is_byte c = true ->
  no_live_timer (dict_get (timers_map self) c) = true ->
  no_live_timer (dict_get (timers_map self) k) = true ->
  exists self1 self2,
    Send self k d = Some self1 /\ SendDown self1 k = Some self2 /\
    serial self2 = serial self ++ [[KEY_DOWN; c]; [KEY_DOWN; c]] /\
    dict_get (timers_map self2) c = Some {| deadline := now self + d; alive := true |}.
Proof.
  intros Hk Hne Hb Hdc Hdk.
  exists (set_timer (write self [KEY_DOWN; c]) c {| deadline := now self + d; alive := true |}).
  eexists. split; [exact (Send_fresh self k c d Hk Hb Hdc)|].
  split.
  - unfold SendDown. simpl.
    rewrite (dict_get_set_other _ c k _ Hne), Hdk, Hk.
    unfold bytes. simpl. rewrite Hb. reflexivity.
  - simpl. split; [now rewrite <- app_assoc|].
    apply dict_get_set_same.
Qed.

Lemma SendDown_after_Send_writes_down_witness :
  dict_get (keys_map (init example_map)) (Key.number Key.A) = Some 97 /\
  exists self1 self2,
    Send (init example_map) (Key.number Key.A) 100 = Some self1 /\
    SendDown self1 (Key.number Key.A) = Some self2 /\
    serial self2 = [[1; 97]; [1; 97]] /\
    dict_get (timers_map self2) 97 = Some {| deadline := 100; alive := true |}.
Proof.
  split; [reflexivity|].
  apply (SendDown_after_Send_writes_down (init example_map) 0 97 100);
    [reflexivity | discriminate | reflexivity | reflexivity | reflexivity].
Defined.

(** C9: an identifier [k] missing from the table makes [Send] raise with
    the servicer unchanged, but [SendUp] and [SendDown] acknowledge it
    without any lookup in the table when a live timer happens to be stored
    under the integer [k] (the code of some held key). *)
Theorem unknown_key_acknowledged_when_timer_live self k t d :
  dict_get (keys_map self) k = None ->
  dict_get (timers_map self) k = Some t -> alive t = true ->
  Send self k d = None /\ SendUp self k = Some self /\ SendDown self k = Some self.
Proof.
  intros Hk Ht Ha.
  unfold Send, SendUp, SendDown. rewrite Hk, Ht. simpl. rewrite Ha.
  repeat split.
Qed.

Lemma unknown_key_acknowledged_when_timer_live_witness :
  dict_get (keys_map held_a) 97 = None /\
  Send held_a 97 100 = None /\ SendUp held_a 97 = Some held_a /\
  SendDown held_a 97 = Some held_a.
Proof.
  split; [reflexivity|].
  apply (unknown_key_acknowledged_when_timer_live held_a 97
           {| deadline := 100; alive := true |} 100); reflexivity.
Defined.

(** ** Claims about [SendMouse] *)

(** C5 (as the code does it): deltas inside the int16 range are encoded
    exactly, as int16 little-endian, in the move written first; a delta
    outside it makes the call raise [OverflowError] before any write,
    whatever the action. *)
Theorem SendMouse_delta cx cy req :
  let dx := x req - cx in
  let dy := y req - cy in
  (in_int16 dx && in_int16 dy = true ->
     from_le16 (le16 dx) = dx /\ from_le16 (le16 dy) = dy /\
     match action req with
     | MouseAction.Other _ => SendMouse (cx, cy) req = Some []
     | _ => exists rest,
              SendMouse (cx, cy) req =
              Some (SerialWrite (MOUSE_MOVE :: le16 dx ++ le16 dy) :: rest)
     end) /\
  (in_int16 dx && in_int16 dy = false -> SendMouse (cx, cy) req = None).
Proof.
  intros dx dy. split.
  - intros H. apply andb_true_iff in H as [Hx Hy].
    split; [now apply le16_roundtrip|]. split; [now apply le16_roundtrip|].
    unfold SendMouse. simpl. fold dx dy.
    rewrite (to_bytes2_in dx Hx), (to_bytes2_in dy Hy).
    destruct (action req); simpl; eauto.
  - intros H. unfold SendMouse. simpl. fold dx dy.
    destruct (in_int16 dx) eqn:Hx.
    + rewrite (to_bytes2_in dx Hx). simpl in H.
      now rewrite (to_bytes2_out dy H).
    + now rewrite (to_bytes2_out dx Hx).
Qed.

(** C5, refuted: the claim saturates an overflowing delta; the code raises
    instead of writing the nearest representable move. *)
Lemma SendMouse_overflow_not_saturated :
  SendMouse (0, 0) (mouse_req 1366 768 40000 0 MouseAction.Move) = None /\
  SendMouse (0, 0) (mouse_req 1366 768 40000 0 MouseAction.Move)
  <> Some [SerialWrite (MOUSE_MOVE :: le16 32767 ++ le16 0)].
Proof. split; [reflexivity | discriminate]. Qed.

(** C6 (as the code does it): with both deltas in the int16 range, a click
    is the 5-byte move, an 80 ms sleep, then the lone click opcode; a
    scroll-down is the same move and sleep, then opcode 5 with 1000 as
    int16 little-endian (E8 03).  Outside the range nothing is written. *)
Theorem SendMouse_click_scroll cx cy w h tx ty :
  le16 1000 = [0xE8; 0x03] /\
  (in_int16 (tx - cx) && in_int16 (ty - cy) = true ->
   SendMouse (cx, cy) (mouse_req w h tx ty MouseAction.Click) =
     Some [SerialWrite (MOUSE_MOVE :: le16 (tx - cx) ++ le16 (ty - cy)); Sleep 80;
           SerialWrite [MOUSE_CLICK]] /\
   SendMouse (cx, cy) (mouse_req w h tx ty MouseAction.ScrollDown) =
     Some [SerialWrite (MOUSE_MOVE :: le16 (tx - cx) ++ le16 (ty - cy)); Sleep 80;
           SerialWrite (MOUSE_SCROLL :: le16 1000)]) /\
  (in_int16 (tx - cx) && in_int16 (ty - cy) = false ->
   SendMouse (cx, cy) (mouse_req w h tx ty MouseAction.Click) = None /\
   SendMouse (cx, cy) (mouse_req w h tx ty MouseAction.ScrollDown) = None).
Proof.
  split; [reflexivity|]. split.
  - intros H. apply andb_true_iff in H as [Hx Hy].
    unfold SendMouse. simpl.
    rewrite (to_bytes2_in _ Hx), (to_bytes2_in _ Hy). split; reflexivity.
  - intros H. pose proof (SendMouse_delta cx cy (mouse_req w h tx ty MouseAction.Click)) as [_ H1].
    pose proof (SendMouse_delta cx cy (mouse_req w h tx ty MouseAction.ScrollDown)) as [_ H2].
    simpl in H1, H2. split; [apply H1 | apply H2]; exact H.
Qed.

(** C6, refuted: a click whose delta overflows writes no move at all. *)
Lemma SendMouse_click_overflow_no_move :
  SendMouse (0, 0) (mouse_req 1366 768 40000 0 MouseAction.Click) = None.
Proof. reflexivity. Qed.

(** C7: cursor at (500, 400), move to (683, 384). *)
Theorem SendMouse_move_scenario :
  SendMouse (500, 400) (mouse_req 1366 768 683 384 MouseAction.Move)
  = Some [SerialWrite [MOUSE_MOVE; 0xB7; 0x00; 0xF0; 0xFF]].
Proof. reflexivity. Qed.

(** C10 (as the code does it): an action other than [Move], [Click] and
    [ScrollDown] writes nothing and is acknowledged when both deltas fit
    in int16, and raises [OverflowError] (still writing nothing) when one
    does not. *)
Theorem SendMouse_other_action cx cy w h tx ty n :
  SendMouse (cx, cy) (mouse_req w h tx ty (MouseAction.Other n)) =
  if in_int16 (tx - cx) && in_int16 (ty - cy) then Some [] else None.
Proof.
  unfold SendMouse. simpl.
  destruct (in_int16 (tx - cx)) eqn:Hx, (in_int16 (ty - cy)) eqn:Hy; simpl;
    rewrite ?(to_bytes2_in _ Hx), ?(to_bytes2_in _ Hy),
            ?(to_bytes2_out _ Hx), ?(to_bytes2_out _ Hy); reflexivity.
Qed.

(** C10, refuted: an unlisted action with an overflowing delta raises. *)
Lemma SendMouse_other_overflow_raises :
  SendMouse (0, 0) (mouse_req 1366 768 40000 0 (MouseAction.Other 7)) = None.
Proof. reflexivity. Qed.

(** ** Claims about the key table *)

(** C4 (as the code does it): the table has 70 entries, one for each
    variant the source names, no variant twice and no code twice; every
    code is one byte, letters and digits map to their ASCII codes, [Space]
    and the punctuation keys to printable ASCII, the other function,
    navigation and modifier keys into [0x80, 0xE0]. *)
Theorem key_table_shape :
  length key_table = 70%nat /\
  NoDup (map (fun e => Key.number (fst e)) key_table) /\
  NoDup (map snd key_table) /\
  (forall k c, In (k, c) key_table -> lookup_key k = Some c) /\
  (forall k, exists c, lookup_key k = Some c /\ is_byte c = true /\
                       code_class_ok k c = true).
Proof.
  split; [reflexivity|].
  split; [apply nodupb_NoDup; vm_compute; reflexivity|].
  split; [apply nodupb_NoDup; vm_compute; reflexivity|].
  split.
  - intros k c H.
    repeat (destruct H as [H|H]; [injection H as <- <-; reflexivity|]).
    destruct H.
  - intros k. destruct k; eexists; (split; [reflexivity | split; vm_compute; reflexivity]).
Qed.

(** C4, refuted: the table has 70 entries, not 76, and [Space] maps to
    ASCII space, outside [0x80, 0xE0]. *)
Lemma key_table_not_76_entries :
  length key_table <> 76%nat /\
  lookup_key Key.Space = Some 32 /\ ~ (0x80 <= 32 <= 0xE0).
Proof.
  split; [discriminate|]. split; [reflexivity | lia].
Qed.

(** ** Invariants of a session *)

Lemma dict_get_in_values {V} (d : list (Z * V)) k v :
  dict_get d k = Some v -> In v (map snd d).
Proof.
  induction d as [|[k' v'] d IH]; simpl; [discriminate|].
  destruct (k' =? k); [intros [= <-]; now left | intros H; right; now apply IH].
Qed.

Lemma fire_due_writes_in t tm w :
  In w (fst (fire_due t tm)) -> exists k, In k (map fst tm) /\ w = [KEY_UP; k].
Proof.
  induction tm as [|[k tmr] tm IH]; simpl; [intros []|].
  destruct (fire_due t tm) as [ws rest'] eqn:E; simpl in *.
  destruct (alive tmr && (deadline tmr <=? t)); simpl.
  - intros [<-|Hin]; [exists k; auto|].
    destruct (IH Hin) as (k' & Hk' & ->). exists k'; auto.
  - intros Hin. destruct (IH Hin) as (k' & Hk' & ->). exists k'; auto.
Qed.

Lemma bytes_key_frame op c b :
  (op = KEY_DOWN \/ op = KEY_UP) -> bytes [op; c] = Some b ->
  b = [op; c] /\ is_byte c = true /\ key_frame b = true.
Proof.
  unfold bytes. simpl. intros Hop.
  destruct (is_byte op && (is_byte c && true)) eqn:E; [|discriminate].
  intros [= <-]. apply andb_true_iff in E as [_ E].
  rewrite andb_true_r in E. split; [reflexivity|]. split; [exact E|].
  unfold key_frame. rewrite E, andb_true_r.
  destruct Hop as [-> | ->]; reflexivity.
Qed.

(** What every reachable servicer satisfies: at most one timer per dict
    key, timers only under one-byte codes of the table, and only
    two-byte key frames on the serial link. *)
Definition wf (s : KeyInput) : Prop :=
  NoDup (map fst (timers_map s)) /\
  (forall c, In c (map fst (timers_map s)) ->
             is_byte c = true /\ In c (map snd (keys_map s))) /\
  forallb key_frame (serial s) = true.

Lemma tick_keys_map s : keys_map (tick s) = keys_map s.
Proof.
  unfold tick. now destruct (fire_due (now s + 1) (timers_map s)).
Qed.

Lemma tick_wf s : wf s -> wf (tick s).
Proof.
  intros (Hnd & Hk & Hf).
  destruct (tick_shape s) as (ws & Hs & _ & Hws & Htm).
  assert (Hkeys : map fst (timers_map (tick s)) = map fst (timers_map s))
    by (rewrite Htm; apply fire_due_keys).
  split; [now rewrite Hkeys|]. split.
  - rewrite Hkeys, tick_keys_map. exact Hk.
  - rewrite Hs, forallb_app, Hf. simpl.
    apply forallb_forall. intros w Hw. rewrite Hws in Hw.
    destruct (fire_due_writes_in _ _ _ Hw) as (k & Hin & ->).
    destruct (Hk k Hin) as [Hb _]. simpl. now rewrite Hb.
Qed.

Lemma wait_wf n : forall s, wf s -> wf (wait n s).
Proof.
  induction n as [|n IH]; intros s H; [exact H|]. apply IH, tick_wf, H.
Qed.

Lemma wait_keys_map n : forall s, keys_map (wait n s) = keys_map s.
Proof.
  induction n as [|n IH]; intros s; [reflexivity|].
  simpl. now rewrite IH, tick_keys_map.
Qed.

Lemma write_frame_wf s b :
  wf s -> key_frame b = true -> wf (write s b).
Proof.
  intros (Hnd & Hk & Hf) Hb. split; [exact Hnd|]. split; [exact Hk|].
  simpl. rewrite forallb_app, Hf. simpl. now rewrite Hb.
Qed.

Lemma step_wf s o s' : wf s -> step s o = Some s' -> wf s'.
Proof.
  intros Hwf. destruct o as [k d|k|k|n]; simpl.
  - unfold Send.
    destruct (dict_get (keys_map s) k) as [c|] eqn:Hkc; [|discriminate].
    destruct (no_live_timer (dict_get (timers_map s) c)); [|now intros [= <-]].
    destruct (bytes [KEY_DOWN; c]) as [b|] eqn:Hb; [|discriminate].
    intros [= <-].
    destruct (bytes_key_frame KEY_DOWN c b (or_introl eq_refl) Hb) as (-> & Hc & Hfr).
    destruct (write_frame_wf s _ Hwf Hfr) as (Hnd & Hk & Hf).
    split; [now apply dict_set_nodup|]. split; [|exact Hf].
    intros x Hx. simpl in Hx. apply dict_set_in in Hx as [->|Hx].
    + split; [exact Hc|]. now apply (dict_get_in_values _ k).
    + now apply Hk.
  - unfold SendUp.
    destruct (no_live_timer (dict_get (timers_map s) k)); [|now intros [= <-]].
    destruct (dict_get (keys_map s) k) as [c|]; [|discriminate].
    destruct (bytes [KEY_UP; c]) as [b|] eqn:Hb; [|discriminate].
    intros [= <-].
    destruct (bytes_key_frame KEY_UP c b (or_intror eq_refl) Hb) as (-> & _ & Hfr).
    now apply write_frame_wf.
  - unfold SendDown.
    destruct (no_live_timer (dict_get (timers_map s) k)); [|now intros [= <-]].
    destruct (dict_get (keys_map s) k) as [c|]; [|discriminate].
    destruct (bytes [KEY_DOWN; c]) as [b|] eqn:Hb; [|discriminate].
    intros [= <-].
    destruct (bytes_key_frame KEY_DOWN c b (or_introl eq_refl) Hb) as (-> & _ & Hfr).
    now apply write_frame_wf.
  - intros [= <-]. now apply wait_wf.
Qed.

Lemma step_keys_map s o s' : step s o = Some s' -> keys_map s' = keys_map s.
Proof.
  destruct o as [k d|k|k|n]; simpl.
  - unfold Send. destruct (dict_get (keys_map s) k); [|discriminate].
    destruct (no_live_timer _); [|now intros [= <-]].
    destruct (bytes _); [|discriminate]. now intros [= <-].
  - unfold SendUp. destruct (no_live_timer _); [|now intros [= <-]].
    destruct (dict_get (keys_map s) k); [|discriminate].
    destruct (bytes _); [|discriminate]. now intros [= <-].
  - unfold SendDown. destruct (no_live_timer _); [|now intros [= <-]].
    destruct (dict_get (keys_map s) k); [|discriminate].
    destruct (bytes _); [|discriminate]. now intros [= <-].
  - intros [= <-]. apply wait_keys_map.
Qed.

Lemma run_ops_wf ops : forall s, wf s -> wf (run_ops s ops).
Proof.
  induction ops as [|o ops IH]; intros s H; simpl; [exact H|].
  apply IH. unfold serve.
  destruct (step s o) eqn:E; [now apply (step_wf s o) | exact H].
Qed.

Lemma run_ops_keys_map ops : forall s, keys_map (run_ops s ops) = keys_map s.
Proof.
  induction ops as [|o ops IH]; intros s; simpl; [reflexivity|].
  rewrite IH. unfold serve.
  destruct (step s o) eqn:E; [now apply (step_keys_map s o) | reflexivity].
Qed.

Lemma init_wf km : wf (init km).
Proof. split; [constructor|]. split; [intros c []|reflexivity]. Qed.

(** X1: in every session on a fresh servicer, [timers_map] holds at most
    one timer per key code, and only under one-byte codes of the table. *)
Theorem session_one_timer_per_code km ops :
  let s := run_ops (init km) ops in
  NoDup (map fst (timers_map s)) /\
  forall c, In c (map fst (timers_map s)) -> is_byte c = true /\ In c (map snd km).
Proof.
  intros s. destruct (run_ops_wf ops (init km) (init_wf km)) as (Hnd & Hk & _).
  split; [exact Hnd|]. intros c Hc. destruct (Hk c Hc) as [Hb Hin].
  split; [exact Hb|]. now rewrite (run_ops_keys_map ops (init km)) in Hin.
Qed.

(** X2: in every session on a fresh servicer, each write on the serial
    link is a two-byte key frame: opcode 1 or 2, then a byte. *)
Theorem session_writes_key_frames km ops :
  forallb key_frame (serial (run_ops (init km) ops)) = true.
Proof.
  destruct (run_ops_wf ops (init km) (init_wf km)) as (_ & _ & Hf). exact Hf.
Qed.

(** ** Down and up writes of one code *)

Lemma key_trace_app c a : forall h b,
  key_trace c h (a ++ b) =
  match key_trace c h a with Some h' => key_trace c h' b | None => None end.
Proof.
  induction a as [|w a IH]; intros h b; [reflexivity|].
  destruct w as [|op [|k [|x w]]]; simpl; try reflexivity.
  destruct ((k =? c) && (op =? KEY_DOWN) && negb h); [apply IH|].
  destruct ((k =? c) && (op =? KEY_UP) && h); [apply IH | reflexivity].
Qed.

(** The key writes of [c] so far alternate, starting with a key-down, and
    the key is down exactly while a live timer is stored under [c]. *)
Definition balanced (s : KeyInput) (c : Z) : Prop :=
  key_trace c false (filter (is_key_write c) (serial s)) =
  Some (negb (no_live_timer (dict_get (timers_map s) c))).

Lemma Send_balanced s k d c s' :
  balanced s c -> Send s k d = Some s' -> balanced s' c.
Proof.
  unfold balanced, Send. intros Hb.
  destruct (dict_get (keys_map s) k) as [c'|]; [|discriminate].
  destruct (no_live_timer (dict_get (timers_map s) c')) eqn:Hl; [|now intros [= <-]].
  destruct (bytes [KEY_DOWN; c']) as [b|] eqn:Hby; [|discriminate].
  intros [= <-].
  destruct (bytes_key_frame KEY_DOWN c' b (or_introl eq_refl) Hby) as (-> & _ & _).
  simpl. rewrite filter_app, key_trace_app, Hb.
  destruct (Z.eq_dec c' c) as [->|Hne].
  - rewrite dict_get_set_same, Hl. simpl.
    unfold KEY_DOWN. rewrite Z.eqb_refl. cbn. now rewrite Z.eqb_refl.
  - rewrite (dict_get_set_other _ c' c _ Hne). simpl.
    apply Z.eqb_neq in Hne. rewrite Hne. reflexivity.
Qed.

Lemma tick_balanced s c :
  NoDup (map fst (timers_map s)) -> balanced s c -> balanced (tick s) c.
Proof.
  unfold balanced. intros Hnd Hb.
  destruct (tick_shape s) as (ws & Hs & _ & Hws & Htm).
  rewrite Hs, filter_app, key_trace_app, Hb, Htm, fire_due_get, Hws,
    fire_due_writes by exact Hnd.
  destruct (dict_get (timers_map s) c) as [tmr|]; simpl; [|reflexivity].
  unfold fire_one.
  destruct (alive tmr) eqn:Ha; simpl.
  - destruct (deadline tmr <=? now s + 1); simpl; [|now rewrite Ha].
    unfold KEY_UP. cbn. now rewrite Z.eqb_refl.
  - now rewrite Ha.
Qed.

Lemma wait_balanced n : forall s c,
  wf s -> balanced s c -> balanced (wait n s) c.
Proof.
  induction n as [|n IH]; intros s c Hwf Hb; [exact Hb|].
  apply IH; [now apply tick_wf | apply tick_balanced; [apply Hwf | exact Hb]].
Qed.

Lemma run_ops_balanced ops : forall s c,
  wf s -> balanced s c -> send_only ops = true -> balanced (run_ops s ops) c.
Proof.
  induction ops as [|o ops IH]; intros s c Hwf Hb Hso; [exact Hb|].
  simpl in Hso. apply andb_true_iff in Hso as [Ho Hso].
  simpl. unfold serve.
  destruct (step s o) as [s'|] eqn:E; [|now apply IH].
  apply IH; [now apply (step_wf s o) | | exact Hso].
  destruct o as [k d|k|k|n]; try discriminate; simpl in E.
  - now apply (Send_balanced s k d).
  - injection E as <-. now apply wait_balanced.
Qed.

(** X3: in a session of [Send] calls and waiting on a fresh servicer, the
    key-downs and key-ups written for any code alternate, starting with a
    key-down, and the code is down exactly while its timer is live. *)
Theorem send_session_balanced km ops c :
  send_only ops = true ->
  key_trace c false (filter (is_key_write c) (serial (run_ops (init km) ops))) =
  Some (negb (no_live_timer (dict_get (timers_map (run_ops (init km) ops)) c))).
Proof.
  intros Hso. apply (run_ops_balanced ops (init km) c (init_wf km)); [reflexivity | exact Hso].
Qed.

Lemma send_session_balanced_witness :
  send_only [OpSend 0 100; OpSend 0 50; OpWait 120; OpSend 0 30; OpSend 1 10] = true /\
  key_trace 97 false (filter (is_key_write 97)
    (serial (run_ops (init example_map)
       [OpSend 0 100; OpSend 0 50; OpWait 120; OpSend 0 30; OpSend 1 10]))) =
  Some (negb (no_live_timer (dict_get (timers_map (run_ops (init example_map)
       [OpSend 0 100; OpSend 0 50; OpWait 120; OpSend 0 30; OpSend 1 10])) 97))).
Proof.
  split; [reflexivity|]. apply send_session_balanced. reflexivity.
Defined.

(** ** Pressing again after the release *)

Lemma wait_timer_state n : forall s c D,
  NoDup (map fst (timers_map s)) ->
  dict_get (timers_map s) c = Some {| deadline := D; alive := true |} ->
  dict_get (timers_map (wait n s)) c =
  Some {| deadline := D; alive := Z.of_nat n <? Z.max 1 (D - now s) |}.
Proof.
  induction n as [|n IH]; intros s c D Hnd Hlive.
  - simpl. rewrite Hlive. do 2 f_equal. symmetry. apply Z.ltb_lt. lia.
  - change (wait (S n) s) with (wait n (tick s)).
    destruct (tick_shape s) as (ws & _ & Hn & _ & Htm).
    assert (Hg : dict_get (timers_map (tick s)) c =
                 Some (fire_one (now s + 1) {| deadline := D; alive := true |}))
      by (rewrite Htm, fire_due_get, Hlive; reflexivity).
    unfold fire_one in Hg. simpl in Hg.
    destruct (D <=? now s + 1) eqn:Hdue.
    + (* released at this tick; a dead timer stays as it is *)
      apply Z.leb_le in Hdue.
      replace (Z.of_nat (S n) <? Z.max 1 (D - now s)) with false
        by (symmetry; apply Z.ltb_ge; lia).
      clear IH Hn Htm. revert Hg. generalize (tick s) (tick_nodup s Hnd).
      induction n as [|n IHn]; intros s1 Hnd1 Hg; [exact Hg|].
      apply (IHn (tick s1) (tick_nodup s1 Hnd1)).
      destruct (tick_shape s1) as (ws1 & _ & _ & _ & Htm1).
      rewrite Htm1, fire_due_get, Hg. reflexivity.
    + apply Z.leb_gt in Hdue.
      rewrite (IH (tick s) c D (tick_nodup s Hnd) Hg), Hn.
      do 2 f_equal.
      destruct (Z.of_nat (S n) <? Z.max 1 (D - now s)) eqn:E1;
      destruct (Z.of_nat n <? Z.max 1 (D - (now s + 1))) eqn:E2; auto;
        [apply Z.ltb_lt in E1; apply Z.ltb_ge in E2 | apply Z.ltb_ge in E1; apply Z.ltb_lt in E2];
        lia.
Qed.

Lemma wait_now n : forall s, now (wait n s) = now s + Z.of_nat n.
Proof.
  induction n as [|n IH]; intros s; simpl; [lia|].
  rewrite IH. destruct (tick_shape s) as (_ & _ & -> & _). lia.
Qed.

Lemma is_key_write_down c : is_key_write c [KEY_DOWN; c] = true.
Proof. unfold is_key_write. now rewrite Z.eqb_refl. Qed.

(** X4: once the release timer of [Send(k, d)] has fired (after
    [max 1 d] milliseconds), a new [Send(k, d')] presses the key again:
    the writes for its code are down, up, down, and a fresh live timer is
    armed at the new deadline. *)
Theorem Send_again_after_release self k c d d' n :
  NoDup (map fst (timers_map self)) ->
  dict_get (keys_map self) k = Some c -> is_byte c = true ->
  no_live_timer (dict_get (timers_map self) c) = true ->
  Z.max 1 d <= Z.of_nat n ->
  exists s1 s2,
    Send self k d = Some s1 /\ Send (wait n s1) k d' = Some s2 /\
    filter (is_key_write c) (serial s2) =
      filter (is_key_write c) (serial self) ++
      [[KEY_DOWN; c]; [KEY_UP; c]; [KEY_DOWN; c]] /\
    dict_get (timers_map s2) c =
      Some {| deadline := now self + Z.of_nat n + d'; alive := true |}.
Proof.
  intros Hnd Hk Hb Hdead Hn.
  set (s1 := set_timer (write self [KEY_DOWN; c]) c
                       {| deadline := now self + d; alive := true |}).
  assert (Hs1 : Send self k d = Some s1) by exact (Send_fresh self k c d Hk Hb Hdead).
  assert (Hnd1 : NoDup (map fst (timers_map s1))) by (apply dict_set_nodup; exact Hnd).
  assert (Hg1 : dict_get (timers_map s1) c =
                Some {| deadline := now self + d; alive := true |})
    by apply dict_get_set_same.
  assert (Hdead2 : no_live_timer (dict_get (timers_map (wait n s1)) c) = true).
  { rewrite (wait_timer_state n s1 c _ Hnd1 Hg1). simpl.
    replace (now s1) with (now self) by reflexivity.
    replace (now self + d - now self) with d by lia.
    destruct (Z.of_nat n <? Z.max 1 d) eqn:E; [apply Z.ltb_lt in E; lia | reflexivity]. }
  assert (Hk2 : dict_get (keys_map (wait n s1)) k = Some c)
    by (rewrite wait_keys_map; exact Hk).
  exists s1. eexists. split; [exact Hs1|].
  split; [exact (Send_fresh (wait n s1) k c d' Hk2 Hb Hdead2)|].
  split.
  - destruct (wait_alive n s1 c _ Hnd1 Hg1) as (ext & He & Hf).
    change (now s1) with (now self) in Hf.
    replace (now self + d - now self) with d in Hf by lia.
    replace (Z.of_nat n <? Z.max 1 d) with false in Hf
      by (symmetry; apply Z.ltb_ge; lia).
    assert (Hd : filter (is_key_write c) [[KEY_DOWN; c]] = [[KEY_DOWN; c]])
      by (cbn [filter]; now rewrite is_key_write_down).
    change (serial (set_timer (write (wait n s1) [KEY_DOWN; c]) c
              {| deadline := now (wait n s1) + d'; alive := true |}))
      with (serial (wait n s1) ++ [[KEY_DOWN; c]]).
    rewrite He. change (serial s1) with (serial self ++ [[KEY_DOWN; c]]).
    rewrite !filter_app, Hf, Hd. now rewrite <- !app_assoc.
  - simpl. rewrite dict_get_set_same, wait_now. reflexivity.
Qed.

Lemma Send_again_after_release_witness :
  Z.max 1 100 <= Z.of_nat 150 /\
  exists s1 s2,
    Send (init example_map) 0 100 = Some s1 /\ Send (wait 150 s1) 0 40 = Some s2 /\
    filter (is_key_write 97) (serial s2) =
      filter (is_key_write 97) (serial (init example_map)) ++
      [[KEY_DOWN; 97]; [KEY_UP; 97]; [KEY_DOWN; 97]] /\
    dict_get (timers_map s2) 97 =
      Some {| deadline := now (init example_map) + Z.of_nat 150 + 40; alive := true |}.
Proof.
  split; [vm_compute; discriminate|].
  apply (Send_again_after_release (init example_map) 0 97 100 40 150);
    [constructor | reflexivity | reflexivity | reflexivity | vm_compute; discriminate].
Defined.

(** ** Resolving the variants of the table *)

Lemma Key_of_number_number k : Key.of_number (Key.number k) = Some k.
Proof. destruct k; reflexivity. Qed.

Lemma Key_eqb_eq k1 k2 : Key.eqb k1 k2 = true <-> k1 = k2.
Proof.
  unfold Key.eqb. rewrite Z.eqb_eq. split; [|now intros ->].
  intros H. apply (f_equal Key.of_number) in H.
  rewrite !Key_of_number_number in H. now injection H.
Qed.

Lemma dict_get_keyed num (l : list (Key.t * Z)) k :
  (forall k1 k2, num k1 = num k2 -> k1 = k2) ->
  dict_get (map (fun '(k', c) => (num k', c)) l) (num k) =
  match find (fun e => Key.eqb (fst e) k) l with
  | Some (_, c) => Some c
  | None => None
  end.
Proof.
  intros Hinj. induction l as [|[k' c'] l IH]; simpl; [reflexivity|].
  destruct (num k' =? num k) eqn:E1; destruct (Key.eqb k' k) eqn:E2; auto.
  - apply Z.eqb_eq, Hinj in E1. subst. now rewrite (proj2 (Key_eqb_eq k k) eq_refl) in E2.
  - apply Key_eqb_eq in E2. subst. now rewrite Z.eqb_refl in E1.
Qed.

Lemma lookup_key_byte k : exists c, lookup_key k = Some c /\ is_byte c = true.
Proof. destruct k; eexists; split; reflexivity. Qed.

(** X5: whatever distinct integers the enum gives the variants, a servicer
    built with the table of [__main__] resolves every variant the table
    names to its listed code, and [Send], [SendUp] and [SendDown] on such
    a variant never raise. *)
Theorem table_variants_never_raise num s k d :
  (forall k1 k2, num k1 = num k2 -> k1 = k2) ->
  keys_map s = keys_map_of num ->
  dict_get (keys_map s) (num k) = lookup_key k /\
  Send s (num k) d <> None /\ SendUp s (num k) <> None /\ SendDown s (num k) <> None.
Proof.
  intros Hinj Hkm.
  assert (Hr : dict_get (keys_map s) (num k) = lookup_key k)
    by (rewrite Hkm; unfold keys_map_of; now rewrite dict_get_keyed).
  destruct (lookup_key_byte k) as (c & Hc & Hb).
  rewrite Hc in Hr.
  split; [now rewrite Hc|].
  assert (Hbytes : forall op, is_byte op = true -> bytes [op; c] = Some [op; c])
    by (intros op Hop; unfold bytes; simpl; now rewrite Hop, Hb).
  unfold Send, SendUp, SendDown. rewrite Hr.
  repeat split.
  - destruct (no_live_timer _); [rewrite Hbytes by reflexivity|]; discriminate.
  - destruct (no_live_timer _); [rewrite Hbytes by reflexivity|]; discriminate.
  - destruct (no_live_timer _); [rewrite Hbytes by reflexivity|]; discriminate.
Qed.

Lemma table_variants_never_raise_witness :
  (forall k1 k2, Key.number k1 = Key.number k2 -> k1 = k2) /\
  dict_get (keys_map held_a) (Key.number Key.Enter) = lookup_key Key.Enter /\
  Send held_a (Key.number Key.Enter) 10 <> None /\
  SendUp held_a (Key.number Key.Enter) <> None /\
  SendDown held_a (Key.number Key.Enter) <> None.
Proof.
  assert (Hinj : forall k1 k2, Key.number k1 = Key.number k2 -> k1 = k2)
    by (intros k1 k2 H; apply Key_eqb_eq; unfold Key.eqb; now rewrite H, Z.eqb_refl).
  split; [exact Hinj|].
  exact (table_variants_never_raise Key.number held_a Key.Enter 10 Hinj eq_refl).
Defined.

(** ** Bytes of the mouse frames *)

Lemma le16_bytes v : forallb is_byte (le16 v) = true.
Proof.
  unfold le16, is_byte.
  pose proof (Z.mod_pos_bound (v mod 65536) 256 ltac:(lia)).
  pose proof (Z.mod_pos_bound v 65536 ltac:(lia)).
  assert (0 <= v mod 65536 / 256 < 256).
  { split; [apply Z.div_pos; lia | apply Z.div_lt_upper_bound; lia]. }
  simpl. repeat (apply andb_true_iff; split); try reflexivity;
    first [apply Z.leb_le | apply Z.ltb_lt]; lia.
Qed.

(** X6: every write [SendMouse] makes is a well-formed frame of bytes in
    [0, 255]: the 5-byte move (opcode 3 and two int16 words), the lone
    click opcode 4, or opcode 5 with two bytes. *)
Theorem SendMouse_writes_frames position req effs :
  SendMouse position req = Some effs ->
  forall b, In (SerialWrite b) effs ->
  forallb is_byte b = true /\
  ((exists dxb dyb, b = MOUSE_MOVE :: dxb ++ dyb /\ length dxb = 2%nat /\ length dyb = 2%nat)
   \/ b = [MOUSE_CLICK] \/ (exists sb, b = MOUSE_SCROLL :: sb /\ length sb = 2%nat)).
Proof.
  unfold SendMouse.
  destruct (to_bytes2_signed (x req - fst position)) as [dxb|] eqn:Hx; [|discriminate].
  destruct (to_bytes2_signed (y req - snd position)) as [dyb|] eqn:Hy; [|discriminate].
  unfold to_bytes2_signed in Hx, Hy.
  destruct (_ && _) in Hx; [|discriminate]. destruct (_ && _) in Hy; [|discriminate].
  injection Hx as <-. injection Hy as <-.
  fold (le16 (x req - fst position)) (le16 (y req - snd position)).
  pose proof (le16_bytes (x req - fst position)) as Bx.
  pose proof (le16_bytes (y req - snd position)) as By.
  assert (Hmove : forallb is_byte (MOUSE_MOVE :: le16 (x req - fst position) ++
                                   le16 (y req - snd position)) = true /\
          ((exists dxb dyb, MOUSE_MOVE :: le16 (x req - fst position) ++
                                   le16 (y req - snd position) = MOUSE_MOVE :: dxb ++ dyb /\
                            length dxb = 2%nat /\ length dyb = 2%nat)
           \/ MOUSE_MOVE :: le16 (x req - fst position) ++ le16 (y req - snd position) = [MOUSE_CLICK]
           \/ (exists sb, MOUSE_MOVE :: le16 (x req - fst position) ++
                            le16 (y req - snd position) = MOUSE_SCROLL :: sb /\ length sb = 2%nat))).
  { split; [cbn [forallb]; now rewrite forallb_app, Bx, By|].
    left. do 2 eexists. split; [reflexivity|]. split; reflexivity. }
  destruct (action req); simpl.
  - intros [= <-] b [[= <-]|[]]. exact Hmove.
  - intros [= <-] b [[= <-]|[[=]|[[= <-]|[]]]]; [exact Hmove|].
    split; [reflexivity|]. right; left; reflexivity.
  - intros [= <-] b [[= <-]|[[=]|[[= <-]|[]]]]; [exact Hmove|].
    split; [reflexivity|]. right; right. eexists; split; reflexivity.
  - intros [= <-] b [].
Qed.

(** ** [fnmatch], [glob] and [find_arduino_ports] *)

Lemma fnmatch_star p s :
  fnmatch ("*"%char :: p) s =
  fnmatch p s || match s with [] => false | _ :: s' => fnmatch ("*"%char :: p) s' end.
Proof. destruct s; reflexivity. Qed.

Lemma fnmatch_plain_app lit q : forall s,
  forallb plain lit = true ->
  fnmatch (lit ++ q) s = prefixb lit s && fnmatch q (skipn (length lit) s).
Proof.
  induction lit as [|c lit IH]; intros s Hp; [reflexivity|].
  simpl in Hp. apply andb_true_iff in Hp as [Hc Hp].
  unfold plain in Hc. apply andb_true_iff in Hc as [H1 H2].
  apply negb_true_iff in H1, H2.
  simpl. rewrite H1.
  destruct s as [|c' s]; [reflexivity|].
  rewrite H2, IH by exact Hp. simpl. now rewrite andb_assoc.
Qed.

Lemma fnmatch_star_nil s : fnmatch ["*"%char] s = true.
Proof.
  induction s as [|a s IH]; [reflexivity|].
  rewrite fnmatch_star, IH. now rewrite orb_true_r.
Qed.

Lemma fnmatch_prefix lit s :
  forallb plain lit = true -> fnmatch (lit ++ ["*"%char]) s = prefixb lit s.
Proof.
  intros Hp. rewrite fnmatch_plain_app, fnmatch_star_nil by exact Hp.
  apply andb_true_r.
Qed.

Lemma fnmatch_contains h s :
  forallb plain h = true -> fnmatch ("*"%char :: h ++ ["*"%char]) s = str_in h s.
Proof.
  intros Hp. induction s as [|a s IH].
  - rewrite fnmatch_star, fnmatch_prefix by exact Hp. simpl. now rewrite orb_false_r.
  - rewrite fnmatch_star, fnmatch_prefix, IH by exact Hp. reflexivity.
Qed.

Lemma prefixb_app lit s :
  prefixb lit s = true -> s = lit ++ skipn (length lit) s.
Proof.
  revert s. induction lit as [|c lit IH]; intros s H; [reflexivity|].
  destruct s as [|c' s]; [discriminate|].
  simpl in H. apply andb_true_iff in H as [Hc H].
  apply Ascii.eqb_eq in Hc. subst c'. simpl. now rewrite <- IH.
Qed.

Lemma prefixb_of_app lit r : prefixb lit (lit ++ r) = true.
Proof.
  induction lit as [|c lit IH]; [reflexivity|].
  simpl. now rewrite Ascii.eqb_refl, IH.
Qed.

(** A name is in [glob_dev dev pattern] as [/dev/name] exactly when it is
    a non-hidden entry matching the pattern. *)
Lemma glob_dev_in dev pattern p :
  In p (glob_dev dev pattern) <->
  exists name, p = dev_prefix ++ name /\ In name dev /\
               negb (is_hidden name) && fnmatch (chars pattern) name = true.
Proof.
  unfold glob_dev. rewrite in_map_iff. split.
  - intros (name & <- & Hin). apply filter_In in Hin as [Hin Hf]. eauto.
  - intros (name & -> & Hin & Hf). exists name. split; [reflexivity|].
    now apply filter_In.
Qed.

Lemma glob_dev_nodup dev pattern : NoDup dev -> NoDup (glob_dev dev pattern).
Proof.
  intros Hnd. unfold glob_dev.
  assert (Hf : NoDup (filter (fun name => negb (is_hidden name) &&
                                          fnmatch (chars pattern) name) dev))
    by (apply NoDup_filter; exact Hnd).
  induction Hf as [|a l Hna Hl IH]; cbn [map]; constructor; [|exact IH].
  rewrite in_map_iff. intros (b & Heq & Hb).
  apply app_inv_head in Heq. subst b. contradiction.
Qed.

Import String.StringSyntax.
Local Open Scope string_scope.

Lemma pattern_hid lit :
  forallb plain lit = true ->
  (forall r, str_in HID (lit ++ r) = str_in HID r) ->
  forall name, fnmatch (lit ++ "*"%char :: HID ++ ["*"%char]) name =
               prefixb lit name && str_in HID name.
Proof.
  intros Hp Hh name.
  rewrite fnmatch_plain_app, fnmatch_contains by (exact Hp || reflexivity).
  destruct (prefixb lit name) eqn:E; [|reflexivity].
  simpl. rewrite (prefixb_app lit name E) at 2. now rewrite Hh.
Qed.

Example fnmatch_sample :
  fnmatch (chars "cu.usbmodem*HID*") (chars "cu.usbmodem1101HID") = true.
Proof. reflexivity. Qed.

Lemma glob_dev_in_name dev pattern name :
  In (dev_prefix ++ name) (glob_dev dev pattern) <->
  In name dev /\ negb (is_hidden name) && fnmatch (chars pattern) name = true.
Proof.
  rewrite glob_dev_in. split.
  - intros (n & Heq & Hin & Hf). apply app_inv_head in Heq. now subst n.
  - intros [Hin Hf]. now exists name.
Qed.

Lemma str_in_HID_dev name : str_in HID (dev_prefix ++ name) = str_in HID name.
Proof. reflexivity. Qed.

Lemma prefix_not_hidden lit name :
  prefixb lit name = true -> is_hidden (lit ++ skipn (length lit) name) = false ->
  is_hidden name = false.
Proof. intros Hp. now rewrite <- (prefixb_app lit name Hp). Qed.

(** Each pattern of [find_arduino_ports], as a prefix test (and a test
    for [HID] in the name). *)
Lemma patterns_of_find name :
  fnmatch (chars "cu.usbmodem*HID*") name =
    prefixb (chars "cu.usbmodem") name && str_in HID name /\
  fnmatch (chars "tty.usbmodem*HID*") name =
    prefixb (chars "tty.usbmodem") name && str_in HID name /\
  fnmatch (chars "cu.usbmodem*") name = prefixb (chars "cu.usbmodem") name /\
  fnmatch (chars "cu.usbserial*") name = prefixb (chars "cu.usbserial") name /\
  fnmatch (chars "tty.usbmodem*") name = prefixb (chars "tty.usbmodem") name /\
  fnmatch (chars "tty.usbserial*") name = prefixb (chars "tty.usbserial") name.
Proof.
  repeat split.
  - apply (pattern_hid (chars "cu.usbmodem")); reflexivity.
  - apply (pattern_hid (chars "tty.usbmodem")); reflexivity.
  - apply (fnmatch_prefix (chars "cu.usbmodem")); reflexivity.
  - apply (fnmatch_prefix (chars "cu.usbserial")); reflexivity.
  - apply (fnmatch_prefix (chars "tty.usbmodem")); reflexivity.
  - apply (fnmatch_prefix (chars "tty.usbserial")); reflexivity.
Qed.

Lemma find_arduino_ports_in dev name :
  In (dev_prefix ++ name) (find_arduino_ports dev) <->
  In name dev /\ reported_name name = true.
Proof.
  unfold find_arduino_ports, reported_name.
  rewrite !in_app_iff, !filter_In, !in_app_iff, !glob_dev_in_name, !str_in_HID_dev.
  destruct (patterns_of_find name) as (E1 & E2 & E3 & E4 & E5 & E6).
  rewrite E1, E2, E3, E4, E5, E6.
  destruct (is_hidden name) eqn:Hh.
  - assert (Hcm : prefixb (chars "cu.usbmodem") name = false).
    { destruct (prefixb (chars "cu.usbmodem") name) eqn:E; [|reflexivity].
      now rewrite (prefix_not_hidden _ _ E eq_refl) in Hh. }
    assert (Htm : prefixb (chars "tty.usbmodem") name = false).
    { destruct (prefixb (chars "tty.usbmodem") name) eqn:E; [|reflexivity].
      now rewrite (prefix_not_hidden _ _ E eq_refl) in Hh. }
    assert (Hcs : prefixb (chars "cu.usbserial") name = false).
    { destruct (prefixb (chars "cu.usbserial") name) eqn:E; [|reflexivity].
      now rewrite (prefix_not_hidden _ _ E eq_refl) in Hh. }
    assert (Hts : prefixb (chars "tty.usbserial") name = false).
    { destruct (prefixb (chars "tty.usbserial") name) eqn:E; [|reflexivity].
      now rewrite (prefix_not_hidden _ _ E eq_refl) in Hh. }
    rewrite Hcm, Htm, Hcs, Hts. simpl. intuition discriminate.
  - destruct (prefixb (chars "cu.usbmodem") name), (prefixb (chars "tty.usbmodem") name),
      (prefixb (chars "cu.usbserial") name), (prefixb (chars "tty.usbserial") name),
      (str_in HID name); simpl; intuition discriminate.
Qed.

(** X7: [find_arduino_ports] lists [/dev/name] exactly for the entries
    [name] of [/dev] that are usbmodem devices ([cu.] or [tty.]) or
    usbserial devices without [HID] in their name; a usbserial device
    whose name contains [HID] is never listed. *)
Theorem find_arduino_ports_members dev name :
  In (dev_prefix ++ name) (find_arduino_ports dev) <->
  In name dev /\ reported_name name = true.
Proof. exact (find_arduino_ports_in dev name). Qed.

Lemma patterns_of_find_all :
  (forall name, fnmatch (chars "cu.usbmodem*HID*") name =
     prefixb (chars "cu.usbmodem") name && str_in HID name) /\
  (forall name, fnmatch (chars "tty.usbmodem*HID*") name =
     prefixb (chars "tty.usbmodem") name && str_in HID name) /\
  (forall name, fnmatch (chars "cu.usbmodem*") name = prefixb (chars "cu.usbmodem") name) /\
  (forall name, fnmatch (chars "cu.usbserial*") name = prefixb (chars "cu.usbserial") name) /\
  (forall name, fnmatch (chars "tty.usbmodem*") name = prefixb (chars "tty.usbmodem") name) /\
  (forall name, fnmatch (chars "tty.usbserial*") name = prefixb (chars "tty.usbserial") name).
Proof. repeat split; intro name; apply (patterns_of_find name). Qed.

Lemma part_hid dev pattern lit p :
  (forall name, fnmatch (chars pattern) name = prefixb lit name && str_in HID name) ->
  In p (glob_dev dev pattern) ->
  exists name, p = dev_prefix ++ name /\ In name dev /\
               prefixb lit name = true /\ str_in HID name = true.
Proof.
  intros Hpat Hp. apply glob_dev_in in Hp as (name & -> & Hin & Hf).
  rewrite Hpat in Hf. apply andb_true_iff in Hf as [_ Hf].
  apply andb_true_iff in Hf as [H1 H2]. eauto 6.
Qed.

Lemma part_other dev pat1 pat2 lit1 lit2 p :
  (forall name, fnmatch (chars pat1) name = prefixb lit1 name) ->
  (forall name, fnmatch (chars pat2) name = prefixb lit2 name) ->
  In p (filter (fun p => negb (str_in HID p)) (glob_dev dev pat1 ++ glob_dev dev pat2)) ->
  exists name, p = dev_prefix ++ name /\ In name dev /\
    (prefixb lit1 name = true \/ prefixb lit2 name = true) /\ str_in HID name = false.
Proof.
  intros H1 H2 Hp. apply filter_In in Hp as [Hp Hh].
  apply in_app_iff in Hp as [Hp|Hp]; apply glob_dev_in in Hp as (name & -> & Hin & Hf);
    rewrite str_in_HID_dev in Hh; apply negb_true_iff in Hh;
    apply andb_true_iff in Hf as [_ Hf]; [rewrite H1 in Hf | rewrite H2 in Hf]; eauto 6.
Qed.

Lemma prefix_clash l1 l2 name :
  prefixb l2 (l1 ++ skipn (length l1) name) = false ->
  prefixb l1 name = true -> prefixb l2 name = false.
Proof. intros H Hp. now rewrite (prefixb_app l1 name Hp). Qed.

(** X8: the list has the priority order of its comment: cu HID devices,
    then tty HID devices, then the other cu devices, then the other tty
    devices, each group holding only devices of its kind. *)
Theorem find_arduino_ports_order dev :
  exists cu_hid tty_hid cu_other tty_other,
    find_arduino_ports dev = cu_hid ++ tty_hid ++ cu_other ++ tty_other /\
    (forall p, In p cu_hid -> exists name, p = dev_prefix ++ name /\
       prefixb (chars "cu.usbmodem") name = true /\ str_in HID name = true) /\
    (forall p, In p tty_hid -> exists name, p = dev_prefix ++ name /\
       prefixb (chars "tty.usbmodem") name = true /\ str_in HID name = true) /\
    (forall p, In p cu_other -> exists name, p = dev_prefix ++ name /\
       (prefixb (chars "cu.usbmodem") name = true \/
        prefixb (chars "cu.usbserial") name = true) /\ str_in HID name = false) /\
    (forall p, In p tty_other -> exists name, p = dev_prefix ++ name /\
       (prefixb (chars "tty.usbmodem") name = true \/
        prefixb (chars "tty.usbserial") name = true) /\ str_in HID name = false).
Proof.
  do 4 eexists. split; [reflexivity|].
  repeat split; intros p Hp.
  - destruct (part_hid dev _ _ p (fun n => proj1 (patterns_of_find n)) Hp)
      as (n & -> & _ & H1 & H2). eauto.
  - destruct (part_hid dev _ _ p (fun n => proj1 (proj2 (patterns_of_find n))) Hp)
      as (n & -> & _ & H1 & H2). eauto.
  - destruct (part_other dev _ _ _ _ p
       (fun n => proj1 (proj2 (proj2 (patterns_of_find n))))
       (fun n => proj1 (proj2 (proj2 (proj2 (patterns_of_find n))))) Hp)
      as (n & -> & _ & H1 & H2). eauto.
  - destruct (part_other dev _ _ _ _ p
       (fun n => proj1 (proj2 (proj2 (proj2 (proj2 (patterns_of_find n))))))
       (fun n => proj2 (proj2 (proj2 (proj2 (proj2 (patterns_of_find n)))))) Hp)
      as (n & -> & _ & H1 & H2). eauto.
Qed.

Lemma glob_prefix dev pattern lit p :
  (forall name, fnmatch (chars pattern) name = prefixb lit name) ->
  In p (glob_dev dev pattern) ->
  exists name, p = dev_prefix ++ name /\ prefixb lit name = true.
Proof.
  intros Hpat Hp. apply glob_dev_in in Hp as (name & -> & _ & Hf).
  rewrite Hpat in Hf. apply andb_true_iff in Hf as [_ Hf]. eauto.
Qed.

Ltac port_clash :=
  match goal with
  | H1 : prefixb ?l1 ?n = true, H2 : prefixb ?l2 ?n = true |- _ =>
      rewrite (prefix_clash l1 l2 n eq_refl H1) in H2; discriminate
  | H1 : str_in HID ?n = true, H2 : str_in HID ?n = false |- _ => congruence
  end.

Ltac same_name :=
  match goal with
  | E : dev_prefix ++ ?n = dev_prefix ++ ?m |- _ => apply app_inv_head in E; subst m
  end.

(** X9: a [/dev] listing without repeated names gives a port list without
    repeated ports; the [HID] filter of the cu and tty "other" lists keeps
    the HID devices from being listed twice. *)
Theorem find_arduino_ports_nodup dev :
  NoDup dev -> NoDup (find_arduino_ports dev).
Proof.
  intros Hnd.
  destruct (patterns_of_find_all) as (E1 & E2 & E3 & E4 & E5 & E6).
  pose proof (fun p => part_hid dev _ _ p E1) as HA.
  pose proof (fun p => part_hid dev _ _ p E2) as HB.
  pose proof (fun p => part_other dev _ _ _ _ p E3 E4) as HC.
  pose proof (fun p => part_other dev _ _ _ _ p E5 E6) as HD.
  unfold find_arduino_ports.
  assert (Hg : forall pat1 pat2 lit1 lit2,
             (forall name, fnmatch (chars pat1) name = prefixb lit1 name) ->
             (forall name, fnmatch (chars pat2) name = prefixb lit2 name) ->
             (forall n, prefixb lit1 n = true -> prefixb lit2 n = true -> False) ->
             NoDup (filter (fun p => negb (str_in HID p))
                      (glob_dev dev pat1 ++ glob_dev dev pat2))).
  { intros pat1 pat2 lit1 lit2 H1 H2 H12. apply NoDup_filter.
    apply NoDup_app; try (apply glob_dev_nodup; exact Hnd).
    intros a Ha Hb.
    destruct (glob_prefix dev _ _ a H1 Ha) as (n & -> & P1).
    destruct (glob_prefix dev _ _ _ H2 Hb) as (m & Em & P2).
    same_name. exact (H12 n P1 P2). }
  apply NoDup_app; [apply glob_dev_nodup; exact Hnd|apply NoDup_app;
    [apply glob_dev_nodup; exact Hnd|apply NoDup_app|]|].
  - apply (Hg _ _ _ _ E3 E4). intros n P1 P2. port_clash.
  - apply (Hg _ _ _ _ E5 E6). intros n P1 P2. port_clash.
  - intros a Ha Hb.
    destruct (HC a Ha) as (n & -> & _ & P1 & Q1).
    destruct (HD _ Hb) as (m & Em & _ & P2 & Q2).
    same_name. destruct P1, P2; port_clash.
  - intros a Ha Hb. destruct (HB a Ha) as (n & -> & _ & P1 & Q1).
    apply in_app_iff in Hb as [Hb|Hb].
    + destruct (HC _ Hb) as (m & Em & _ & P2 & Q2). same_name.
      destruct P2; port_clash.
    + destruct (HD _ Hb) as (m & Em & _ & P2 & Q2). same_name.
      destruct P2; port_clash.
  - intros a Ha Hb. destruct (HA a Ha) as (n & -> & _ & P1 & Q1).
    apply in_app_iff in Hb as [Hb|Hb]; [|apply in_app_iff in Hb as [Hb|Hb]].
    + destruct (HB _ Hb) as (m & Em & _ & P2 & Q2). same_name. port_clash.
    + destruct (HC _ Hb) as (m & Em & _ & P2 & Q2). same_name.
      destruct P2; port_clash.
    + destruct (HD _ Hb) as (m & Em & _ & P2 & Q2). same_name.
      destruct P2; port_clash.
Qed.


Lemma str_in_of_prefix sub s : prefixb sub s = true -> str_in sub s = true.
Proof. intros H. destruct s; cbn [str_in]; now rewrite H. Qed.

Lemma str_in_app_r sub l s : str_in sub s = true -> str_in sub (l ++ s) = true.
Proof.
  intros H. induction l as [|a l IH]; [exact H|].
  cbn [app str_in]. rewrite IH. apply orb_true_r.
Qed.

(** X10: off Windows, when [/dev] holds a cu usbmodem device with [HID]
    in its name, [__main__] opens a cu HID device (the first one listed)
    and reports it as the preferred device. *)
Theorem main_port_prefers_cu_hid dev name :
  In name dev ->
  prefixb (chars "cu.usbmodem") name = true -> str_in HID name = true ->
  exists n, main_port false dev = Some (dev_prefix ++ n) /\
            prefixb (chars "cu.usbmodem") n = true /\ str_in HID n = true /\
            report (dev_prefix ++ n) = PreferredCuHid.
Proof.
  intros Hin Hp Hh.
  destruct (patterns_of_find_all) as (E1 & _).
  assert (Hm : In (dev_prefix ++ name) (glob_dev dev "cu.usbmodem*HID*")).
  { apply glob_dev_in_name. split; [exact Hin|].
    rewrite E1, Hp, Hh, (prefix_not_hidden _ _ Hp eq_refl). reflexivity. }
  unfold main_port, find_arduino_ports.
  destruct (glob_dev dev "cu.usbmodem*HID*") as [|a A] eqn:EA; [destruct Hm|].
  destruct (part_hid dev _ _ a E1) as (n & -> & _ & P & H);
    [rewrite EA; left; reflexivity|].
  exists n. repeat split; try assumption.
  unfold report.
  rewrite (str_in_app_r _ _ _ (str_in_of_prefix _ _ P)), (str_in_app_r _ _ _ H).
  reflexivity.
Qed.


Lemma SendMouse_writes_frames_witness :
  SendMouse (500, 400) (mouse_req 1366 768 683 384 MouseAction.ScrollDown) =
    Some [SerialWrite [3; 183; 0; 240; 255]; Sleep 80; SerialWrite [5; 232; 3]] /\
  (forall b, In (SerialWrite b)
               [SerialWrite [3; 183; 0; 240; 255]; Sleep 80; SerialWrite [5; 232; 3]] ->
   forallb is_byte b = true /\
   ((exists dxb dyb, b = MOUSE_MOVE :: dxb ++ dyb /\ length dxb = 2%nat /\ length dyb = 2%nat)
    \/ b = [MOUSE_CLICK] \/ (exists sb, b = MOUSE_SCROLL :: sb /\ length sb = 2%nat))).
Proof.
  split; [reflexivity|].
  apply (SendMouse_writes_frames (500, 400)
           (mouse_req 1366 768 683 384 MouseAction.ScrollDown)).
  reflexivity.
Defined.

Lemma find_arduino_ports_nodup_witness :
  NoDup [chars "cu.usbmodem1101HID"; chars "tty.usbmodem1101HID";
         chars "cu.usbserial9"; chars "null"] /\
  NoDup (find_arduino_ports [chars "cu.usbmodem1101HID"; chars "tty.usbmodem1101HID";
                             chars "cu.usbserial9"; chars "null"]).
Proof.
  assert (H : NoDup [chars "cu.usbmodem1101HID"; chars "tty.usbmodem1101HID";
                     chars "cu.usbserial9"; chars "null"]).
  { repeat constructor; simpl; intuition discriminate. }
  split; [exact H|]. exact (find_arduino_ports_nodup _ H).
Defined.

Lemma main_port_prefers_cu_hid_witness :
  In (chars "cu.usbmodem1101HID")
     [chars "tty.usbmodem7HID"; chars "cu.usbserial9"; chars "cu.usbmodem1101HID"] /\
  prefixb (chars "cu.usbmodem") (chars "cu.usbmodem1101HID") = true /\
  str_in HID (chars "cu.usbmodem1101HID") = true /\
  exists n, main_port false
              [chars "tty.usbmodem7HID"; chars "cu.usbserial9"; chars "cu.usbmodem1101HID"] =
            Some (dev_prefix ++ n) /\
            prefixb (chars "cu.usbmodem") n = true /\ str_in HID n = true /\
            report (dev_prefix ++ n) = PreferredCuHid.
Proof.
  split; [simpl; auto|]. split; [reflexivity|]. split; [reflexivity|].
  apply (main_port_prefers_cu_hid _ (chars "cu.usbmodem1101HID"));
    [simpl; auto|reflexivity|reflexivity].
Defined.
